(** * d3-wind-barbs: the speed decomposition and the SVG glyph of [D3WindBarb]

    A shallow embedding of [d3-wind-barbs.ts] (class [D3WindBarb]) together
    with the small part of d3 and of the DOM that the class drives.

    Conventions of the embedding.
    - A JavaScript [number] is [NaN], a signed infinity, or a finite value
      carried as an exact rational in lowest terms. The arithmetic on the
      speed is binary64 arithmetic: the product with the conversion factor
      and the subtractions of the loop of [getBarbs] round the exact result
      to the nearest binary64 value, ties to even ([Num.round64]), as do the
      decimal literals of [ConversionFactors]. The arithmetic on the lengths
      and angles of the drawing is kept exact, and the sign of zero is not
      represented.
    - [Math.sin], [Math.cos] and [Math.PI] are implementation-approximated in
      ECMAScript; they are taken as a parameter [Math].
    - An attribute value keeps the numbers that the source interpolates into
      its template strings instead of the printed string.
    - The [for] loop of [getBarbs] runs on fuel; [Diverges] is the outcome of
      a run that exhausts it.
    - [nodes] holds the svg roots that the class makes, each with the tree
      that the class has built below it; [querySelector] is the answer of the
      document as it is when [draw] asks, and a [Match] names an element of
      the host document outside those svg roots. So the embedding follows
      one attaching [draw] on a new instance, and any number of [draw]s
      without a container; a later [draw] whose selector matches the svg
      itself or an element inside an svg is not represented. *)

From Stdlib Require Import Ascii ZArith QArith Qcanon Qround Qabs Qpower Lia Lqa.
From stdpp Require Import gmap strings list fin_maps.

Local Open Scope string_scope.
Local Open Scope list_scope.

(** * Part I: the embedding *)

(** ** JavaScript numbers *)

Inductive number : Type :=
| NaN
| Infinity (negative : bool)
| Fin (q : Q).

Declare Scope num_scope.
Delimit Scope num_scope with num.
Bind Scope num_scope with number.

Module Num.

Definition fin (q : Q) : number := Fin (Qred q).

Definition of_Z (z : Z) : number := Fin (inject_Z z).

Definition of_nat (n : nat) : number := of_Z (Z.of_nat n).

Definition isNegative (q : Q) : bool := negb (Qle_bool 0 q).

Definition isZero (q : Q) : bool := Qeq_bool q 0.

Definition neg (x : number) : number :=
  match x with
  | NaN => NaN
  | Infinity s => Infinity (negb s)
  | Fin q => fin (- q)
  end.

Definition add (x y : number) : number :=
  match x, y with
  | NaN, _ | _, NaN => NaN
  | Infinity s, Infinity t => if Bool.eqb s t then Infinity s else NaN
  | Infinity s, Fin _ | Fin _, Infinity s => Infinity s
  | Fin a, Fin b => fin (a + b)
  end.

Definition sub (x y : number) : number :=
  match x, y with
  | NaN, _ | _, NaN => NaN
  | Infinity s, Infinity t => if Bool.eqb s t then NaN else Infinity s
  | Infinity s, Fin _ => Infinity s
  | Fin _, Infinity t => Infinity (negb t)
  | Fin a, Fin b => fin (a - b)
  end.

Definition mul (x y : number) : number :=
  match x, y with
  | NaN, _ | _, NaN => NaN
  | Infinity s, Infinity t => Infinity (xorb s t)
  | Infinity s, Fin q | Fin q, Infinity s =>
      if isZero q then NaN else Infinity (xorb s (isNegative q))
  | Fin a, Fin b => fin (a * b)
  end.

(** Division by a zero divisor takes the zero as [+0]. *)
Definition div (x y : number) : number :=
  match x, y with
  | NaN, _ | _, NaN => NaN
  | Infinity _, Infinity _ => NaN
  | Infinity s, Fin q => Infinity (xorb s (isNegative q))
  | Fin _, Infinity _ => Fin 0
  | Fin a, Fin b =>
      if isZero b then (if isZero a then NaN else Infinity (isNegative a))
      else fin (a / b)
  end.

(** [x < y]; every comparison with [NaN] is false. *)
Definition lt (x y : number) : bool :=
  match x, y with
  | NaN, _ | _, NaN => false
  | Infinity s, Infinity t => s && negb t
  | Infinity s, Fin _ => s
  | Fin _, Infinity t => negb t
  | Fin a, Fin b => negb (Qle_bool b a)
  end.

(** [x <= y]. *)
Definition le (x y : number) : bool :=
  match x, y with
  | NaN, _ | _, NaN => false
  | Infinity s, Infinity t => s || negb t
  | Infinity s, Fin _ => s
  | Fin _, Infinity t => negb t
  | Fin a, Fin b => Qle_bool a b
  end.

Definition gt (x y : number) : bool := lt y x.
Definition ge (x y : number) : bool := le y x.

(** [Number(x.toFixed())]: [toFixed] with no digits prints the integer
    nearest to [x], the larger in magnitude of two equally near ones, and
    [Number] reads it back. [NaN] and the infinities print as themselves. *)
Definition roundHalfAway (q : Q) : Z :=
  if isNegative q then (- Qfloor (- q + (1 # 2)))%Z else Qfloor (q + (1 # 2)).

Definition toFixed (x : number) : number :=
  match x with
  | Fin q => of_Z (roundHalfAway q)
  | _ => x
  end.

(** The [e] with [2 ^ e <= |q| < 2 ^ (e + 1)], for [q] other than zero. *)
Definition binade (q : Q) : Z :=
  let e := (Z.log2 (Z.abs (Qnum q)) - Z.log2 (Zpos (Qden q)))%Z in
  if Qle_bool (2 ^ e) (Qabs q) then e else (e - 1)%Z.

(** The integer nearest to [q], the even one of two equally near ones. *)
Definition roundHalfEven (q : Q) : Z :=
  let f := Qfloor q in
  match (q - inject_Z f ?= 1 # 2)%Q with
  | Lt => f
  | Gt => (f + 1)%Z
  | Eq => if Z.even f then f else (f + 1)%Z
  end.

(** The binary64 value of the real [q] (IEEE 754 roundTiesToEven): the
    nearest multiple of [2 ^ e], where [e] is the exponent of the last of the
    53 bits of the significand, and not below the subnormal [-1074]; an
    infinity when the rounded magnitude reaches [2 ^ 1024]. *)
Definition round64 (q : Q) : number :=
  if isZero q then Fin 0
  else
    let e := (Z.max (binade q) (-1022) - 52)%Z in
    let r := (inject_Z (roundHalfEven (q / 2 ^ e)) * 2 ^ e)%Q in
    if Qle_bool (2 ^ 1024) (Qabs r) then Infinity (isNegative q) else fin r.

(** [x - y] and [x * y] on binary64 values. *)
Definition sub64 (x y : number) : number :=
  match x, y with
  | Fin a, Fin b => round64 (a - b)
  | _, _ => sub x y
  end.

Definition mul64 (x y : number) : number :=
  match x, y with
  | Fin a, Fin b => round64 (a * b)
  | _, _ => mul x y
  end.

End Num.

Notation "x + y" := (Num.add x y) : num_scope.
Notation "x - y" := (Num.sub x y) : num_scope.
Notation "x * y" := (Num.mul x y) : num_scope.
Notation "x / y" := (Num.div x y) : num_scope.
Notation "- x" := (Num.neg x) : num_scope.
Notation "x <? y" := (Num.lt x y) : num_scope.
Notation "x >? y" := (Num.gt x y) : num_scope.
Notation "x >=? y" := (Num.ge x y) : num_scope.

(** Integer literals of the source. *)
Definition num (z : Z) : number := Num.of_Z z.

(** The part of the global [Math] object that the source reads. *)
Record MathObject : Type := {
  Math_sin : number -> number;
  Math_cos : number -> number;
  Math_PI : number;
}.

(** ** Options

    [PrivateWindBarbOptions] is the fully resolved configuration;
    [PublicWindBarbOptions] is its [DeepPartial], where [None] is a
    property that the object does not have. An own property that holds
    [undefined], which an object spread would copy over the default, is not
    represented. *)

Module Size.
Record t : Type := mk { width : number; height : number }.
End Size.

Module Bar.
Record t : Type := mk {
  stroke : string;
  width : number;
  angle : number;
  padding : number;
  fullBarClassName : string;
  shortBarClassName : string;
}.
End Bar.

Module Triangle.
Record t : Type := mk {
  stroke : string;
  fill : string;
  padding : number;
  className : string;
}.
End Triangle.

Module Circle.
Record t : Type := mk {
  stroke : string;
  fill : string;
  radius : number;
  strokeWidth : number;
  className : string;
}.
End Circle.

Module Dims.
Record t : Type := mk {
  barHeight : number;
  triangleHeight : number;
  triangleWidth : number;
}.
End Dims.

Module PartialSize.
Record t : Type := mk { width : option number; height : option number }.
End PartialSize.

Module PartialBar.
Record t : Type := mk {
  stroke : option string;
  width : option number;
  angle : option number;
  padding : option number;
  fullBarClassName : option string;
  shortBarClassName : option string;
}.
End PartialBar.

Module PartialTriangle.
Record t : Type := mk {
  stroke : option string;
  fill : option string;
  padding : option number;
  className : option string;
}.
End PartialTriangle.

Module PartialCircle.
Record t : Type := mk {
  stroke : option string;
  fill : option string;
  radius : option number;
  strokeWidth : option number;
  className : option string;
}.
End PartialCircle.

Record PublicWindBarbOptions : Type := {
  pSize : option PartialSize.t;
  pRootBarClassName : option string;
  pSvgId : option string;
  pConversionFactor : option number;
  pBar : option PartialBar.t;
  pTriangle : option PartialTriangle.t;
  pCircle : option PartialCircle.t;
}.

(** The options of the source after [mergeOptions] without [dims]
    ([Omit<PrivateWindBarbOptions, 'dims'>]). [mergeOptions] never copies
    [rootBarClassName], so the property can be absent at run time. *)
Record OptionsWithoutDims : Type := {
  wd_size : Size.t;
  wd_rootBarClassName : option string;
  wd_svgId : string;
  wd_conversionFactor : number;
  wd_bar : Bar.t;
  wd_triangle : Triangle.t;
  wd_circle : Circle.t;
}.

Record PrivateWindBarbOptions : Type := {
  size : Size.t;
  rootBarClassName : option string;
  svgId : string;
  conversionFactor : number;
  bar : Bar.t;
  triangle : Triangle.t;
  circle : Circle.t;
  dims : Dims.t;
}.

Module ConversionFactors.
Definition KmhToKnot : number := Num.round64 0.539.
Definition MpsToKnot : number := Num.round64 1.944.
Definition None : number := num 1.
End ConversionFactors.

Definition DEFAULT_CONFIG : OptionsWithoutDims := {|
  wd_size := {| Size.height := num 33; Size.width := num 80 |};
  wd_rootBarClassName := Some "wind-barb-root";
  wd_svgId := "";
  wd_bar := {|
    Bar.angle := num 30;
    Bar.padding := num 6;
    Bar.stroke := "#000";
    Bar.width := num 2;
    Bar.fullBarClassName := "wind-barb-bar-full";
    Bar.shortBarClassName := "wind-barb-bar-half";
  |};
  wd_conversionFactor := ConversionFactors.None;
  wd_triangle := {|
    Triangle.fill := "#000";
    Triangle.stroke := "#000";
    Triangle.padding := num 6;
    Triangle.className := "wind-barb-triangle";
  |};
  wd_circle := {|
    Circle.fill := "#FFFFFF00";
    Circle.stroke := "#000";
    Circle.radius := num 10;
    Circle.strokeWidth := num 2;
    Circle.className := "wind-barb-circle";
  |};
|}.

(** Object spread [{ ...d, ...p }], one definition per record shape. *)
Definition spreadSize (d : Size.t) (p : option PartialSize.t) : Size.t :=
  match p with
  | None => d
  | Some p => {|
      Size.width := default (Size.width d) (PartialSize.width p);
      Size.height := default (Size.height d) (PartialSize.height p);
    |}
  end.

Definition spreadBar (d : Bar.t) (p : option PartialBar.t) : Bar.t :=
  match p with
  | None => d
  | Some p => {|
      Bar.stroke := default (Bar.stroke d) (PartialBar.stroke p);
      Bar.width := default (Bar.width d) (PartialBar.width p);
      Bar.angle := default (Bar.angle d) (PartialBar.angle p);
      Bar.padding := default (Bar.padding d) (PartialBar.padding p);
      Bar.fullBarClassName :=
        default (Bar.fullBarClassName d) (PartialBar.fullBarClassName p);
      Bar.shortBarClassName :=
        default (Bar.shortBarClassName d) (PartialBar.shortBarClassName p);
    |}
  end.

Definition spreadTriangle (d : Triangle.t) (p : option PartialTriangle.t)
  : Triangle.t :=
  match p with
  | None => d
  | Some p => {|
      Triangle.stroke := default (Triangle.stroke d) (PartialTriangle.stroke p);
      Triangle.fill := default (Triangle.fill d) (PartialTriangle.fill p);
      Triangle.padding :=
        default (Triangle.padding d) (PartialTriangle.padding p);
      Triangle.className :=
        default (Triangle.className d) (PartialTriangle.className p);
    |}
  end.

Definition spreadCircle (d : Circle.t) (p : option PartialCircle.t)
  : Circle.t :=
  match p with
  | None => d
  | Some p => {|
      Circle.stroke := default (Circle.stroke d) (PartialCircle.stroke p);
      Circle.fill := default (Circle.fill d) (PartialCircle.fill p);
      Circle.radius := default (Circle.radius d) (PartialCircle.radius p);
      Circle.strokeWidth :=
        default (Circle.strokeWidth d) (PartialCircle.strokeWidth p);
      Circle.className :=
        default (Circle.className d) (PartialCircle.className p);
    |}
  end.

(** ** The DOM that d3 builds *)

Inductive transform_function : Type :=
| translate (tx ty : number)
| rotate (degrees : number).

(** The values written by [.attr(name, value)]. The constructors other than
    [AttrNumber] and [AttrString] stand for the template strings of the
    source:
    - [AttrViewBox x y w h] for [`x y w h`],
    - [AttrOrigin x y unit] for [`${x}unit ${y}unit`],
    - [AttrTransform fs] for the concatenation of the functions [fs],
    - [AttrPath p0 p1 p2] for [`Mx0, y0, x1, y1, x2, y2z`]. *)
Inductive attr_value : Type :=
| AttrNumber (n : number)
| AttrString (s : string)
| AttrViewBox (minX minY w h : number)
| AttrOrigin (x y : number) (unit : string)
| AttrTransform (fs : list transform_function)
| AttrPath (p0 p1 p2 : number * number).

#[warnings="-register-all"] Inductive element : Type :=
  Element {
    tagName : string;
    attributes : gmap string attr_value;
    childNodes : list element;
  }.

(** A freshly created element. *)
Definition createElement (tag : string) : element :=
  {| tagName := tag; attributes := ∅; childNodes := [] |}.

(** [selection.attr(name, value)] on one element; a [null] or [undefined]
    value removes the attribute. *)
Definition attr (name : string) (value : attr_value) (e : element) : element :=
  {| tagName := tagName e;
     attributes := <[name := value]> (attributes e);
     childNodes := childNodes e |}.

Definition attrOptional (name : string) (value : option attr_value)
    (e : element) : element :=
  match value with
  | Some v => attr name v e
  | None =>
      {| tagName := tagName e;
         attributes := delete name (attributes e);
         childNodes := childNodes e |}
  end.

(** [parent.append(...)] once the appended child has received its
    attributes and children. *)
Definition append (child : element) (parent : element) : element :=
  {| tagName := tagName parent;
     attributes := attributes parent;
     childNodes := childNodes parent ++ [child] |}.

(** [d3.range(q)] for a count [q]. *)
Definition range (q : nat) : list nat := seq 0 q.

(** [g.selectAll(tag).data(data).enter().append(tag)] on a fresh [g],
    followed by the attributes, which are functions of the index. *)
Definition enterAppend (data : list nat) (build : nat -> element) : element :=
  {| tagName := "g"; attributes := ∅; childNodes := build <$> data |}.

(** ** The document and the nodes that live outside it *)

Inductive query_result : Type :=
| Match (target : nat)
| NoMatch
| InvalidSelector.

(** - [nodes]: the root elements made by [d3.create], by reference;
    - [querySelector]: what [document.querySelector] answers;
    - [attached]: for an element of the document, the references of the
      nodes appended to it, in order. *)
Record world : Type := World {
  nodes : gmap nat element;
  querySelector : string -> query_result;
  attached : gmap nat (list nat);
}.

(** [d3.create(tag)]: a new detached element. *)
Definition create (tag : string) (w : world) : nat * world :=
  let r := fresh (dom (nodes w)) in
  (r, {| nodes := <[r := createElement tag]> (nodes w);
         querySelector := querySelector w;
         attached := attached w |}).

(** In-place update of the node behind a reference. *)
Definition updateNode (r : nat) (f : element -> element) (w : world) : world :=
  {| nodes := alter f r (nodes w);
     querySelector := querySelector w;
     attached := attached w |}.

(** [target.appendChild(node)]: the node leaves its former parent and
    becomes the last child of [target]. [target] is an element of the host
    document outside the svg roots, so the DOM allows the append. *)
Definition appendChild (target r : nat) (w : world) : world :=
  let detached := filter (λ x, x ≠ r) <$> attached w in
  {| nodes := nodes w;
     querySelector := querySelector w;
     attached :=
       <[target := default [] (detached !! target) ++ [r]]> detached |}.

Inductive exception : Type :=
| SyntaxError.

Inductive completion (A : Type) : Type :=
| Returns (a : A)
| Throws (e : exception)
| Diverges.
Arguments Returns {A} a.
Arguments Throws {A} e.
Arguments Diverges {A}.

(** ** The class [D3WindBarb] *)

(** [type Barbs = { 50: number; 10: number; 5: number }]. The counts start
    at [0] and only ever grow by [1], so they are natural numbers. *)
Record Barbs : Type := { barbs50 : nat; barbs10 : nat; barbs5 : nat }.

Record D3WindBarb : Type := {
  speed : number;
  angle : number;
  options : option PublicWindBarbOptions;
  fullOptions : PrivateWindBarbOptions;
  svg : nat;
}.

(** A string is truthy when it is not empty. *)
Definition truthy (s : string) : bool :=
  match s with
  | EmptyString => false
  | String _ _ => true
  end.

Definition getSizes (Math : MathObject) (options : OptionsWithoutDims)
  : Dims.t :=
  let height := Size.height (wd_size options) in
  let C := ((num 90 - Bar.angle (wd_bar options)) * Math_PI Math / num 180)%num in
  let b := (height * Math_sin Math C)%num in
  let ct := (height * Math_cos Math C)%num in
  let triangleHeight := b in
  let triangleWidth := ct in
  {| Dims.barHeight := height;
     Dims.triangleHeight := triangleHeight;
     Dims.triangleWidth := triangleWidth |}.

Definition mergeOptions (Math : MathObject)
    (options : option PublicWindBarbOptions) : PrivateWindBarbOptions :=
  let privateOptions := {|
    wd_bar := spreadBar (wd_bar DEFAULT_CONFIG) (options ≫= pBar);
    wd_conversionFactor :=
      default (wd_conversionFactor DEFAULT_CONFIG) (options ≫= pConversionFactor);
    wd_svgId := default (wd_svgId DEFAULT_CONFIG) (options ≫= pSvgId);
    wd_size := spreadSize (wd_size DEFAULT_CONFIG) (options ≫= pSize);
    wd_triangle := spreadTriangle (wd_triangle DEFAULT_CONFIG) (options ≫= pTriangle);
    wd_circle := spreadCircle (wd_circle DEFAULT_CONFIG) (options ≫= pCircle);
    wd_rootBarClassName := None;
  |} in
  let dims := getSizes Math privateOptions in
  {| size := wd_size privateOptions;
     rootBarClassName := wd_rootBarClassName privateOptions;
     svgId := wd_svgId privateOptions;
     conversionFactor := wd_conversionFactor privateOptions;
     bar := wd_bar privateOptions;
     triangle := wd_triangle privateOptions;
     circle := wd_circle privateOptions;
     dims := dims |}.

(** The element that [createSvg] returns, once all its attributes are set. *)
Definition svgElement (fullOptions : PrivateWindBarbOptions) : element :=
  let width := Size.width (size fullOptions) in
  let height := Size.height (size fullOptions) in
  let svg :=
    attr "overflow" (AttrString "visible")
      (attr "height" (AttrNumber height)
        (attr "width" (AttrNumber width)
          (attr "preserveAspectRatio" (AttrString "xMidYMid meet")
            (attr "viewBox" (AttrViewBox (num 0) (num 0) width height)
              (createElement "svg"))))) in
  if truthy (svgId fullOptions)
  then attr "id" (AttrString (svgId fullOptions)) svg
  else svg.

Definition createSvg (fullOptions : PrivateWindBarbOptions) (w : world)
  : nat * world :=
  let width := Size.width (size fullOptions) in
  let height := Size.height (size fullOptions) in
  let '(svg, w) := create "svg" w in
  let w := updateNode svg (attr "viewBox" (AttrViewBox (num 0) (num 0) width height)) w in
  let w := updateNode svg (attr "preserveAspectRatio" (AttrString "xMidYMid meet")) w in
  let w := updateNode svg (attr "width" (AttrNumber width)) w in
  let w := updateNode svg (attr "height" (AttrNumber height)) w in
  let w := updateNode svg (attr "overflow" (AttrString "visible")) w in
  let w :=
    if truthy (svgId fullOptions)
    then updateNode svg (attr "id" (AttrString (svgId fullOptions))) w
    else w in
  (svg, w).

(** [new D3WindBarb(speed, angle, options)]. *)
Definition constructor (Math : MathObject) (speed angle : number)
    (options : option PublicWindBarbOptions) (w : world) : D3WindBarb * world :=
  let fullOptions := mergeOptions Math options in
  let '(svg, w) := createSvg fullOptions w in
  ({| speed := speed; angle := angle; options := options;
      fullOptions := fullOptions; svg := svg |}, w).

(** The effective knots: [Number((speed * conversionFactor).toFixed())]. *)
Definition knotsOf (this : D3WindBarb) : number :=
  Num.toFixed (Num.mul64 (speed this) (conversionFactor (fullOptions this))).

Definition incr50 (res : Barbs) : Barbs :=
  {| barbs50 := barbs50 res + 1; barbs10 := barbs10 res; barbs5 := barbs5 res |}.
Definition incr10 (res : Barbs) : Barbs :=
  {| barbs50 := barbs50 res; barbs10 := barbs10 res + 1; barbs5 := barbs5 res |}.
Definition incr5 (res : Barbs) : Barbs :=
  {| barbs50 := barbs50 res; barbs10 := barbs10 res; barbs5 := barbs5 res + 1 |}.

(** [for (let k = knots; k > 0; ) { ... }]; one unit of fuel per run of
    the body. The subtractions are those of binary64. *)
Fixpoint getBarbsLoop (fuel : nat) (k : number) (res : Barbs) {struct fuel}
  : completion Barbs :=
  if (k >? num 0)%num then
    match fuel with
    | O => Diverges
    | S fuel =>
        if (Num.sub64 k (num 50) >=? num 0)%num then
          getBarbsLoop fuel (Num.sub64 k (num 50)) (incr50 res)
        else if (Num.sub64 k (num 10) >=? num 0)%num then
          getBarbsLoop fuel (Num.sub64 k (num 10)) (incr10 res)
        else if (Num.sub64 k (num 5) >=? num 0)%num then
          getBarbsLoop fuel (Num.sub64 k (num 5)) (incr5 res)
        else Returns res
    end
  else Returns res.

(** [Barbs | undefined]: [None] is [undefined]. *)
Definition getBarbs (fuel : nat) (this : D3WindBarb)
  : completion (option Barbs) :=
  let knots := knotsOf this in
  let res := {| barbs50 := 0; barbs10 := 0; barbs5 := 0 |} in
  if (knots <? num 5)%num then Returns None
  else
    match getBarbsLoop fuel knots res with
    | Returns res => Returns (Some res)
    | Throws e => Throws e
    | Diverges => Diverges
    end.

Definition circleElement (this : D3WindBarb) : element :=
  let width := Size.width (size (fullOptions this)) in
  let height := Size.height (size (fullOptions this)) in
  let circle := circle (fullOptions this) in
  attr "class" (AttrString (Circle.className circle))
    (attr "stroke-width" (AttrNumber (Circle.strokeWidth circle))
      (attr "fill" (AttrString (Circle.fill circle))
        (attr "stroke" (AttrString (Circle.stroke circle))
          (attr "cy" (AttrNumber (height / num 2)%num)
            (attr "cx" (AttrNumber (width / num 2)%num)
              (attr "r" (AttrNumber (Circle.radius circle))
                (createElement "circle"))))))).

Definition drawCircle (this : D3WindBarb) (w : world) : world :=
  updateNode (svg this) (append (circleElement this)) w.

(** [initialX] of [drawPath] in [drawTriangles]:
    [width - (triangleWidth + padding) * index]. *)
Definition initialX (this : D3WindBarb) (index : nat) : number :=
  let width := Size.width (size (fullOptions this)) in
  let padding := Triangle.padding (triangle (fullOptions this)) in
  let triangleWidth := Dims.triangleWidth (dims (fullOptions this)) in
  (width - (triangleWidth + padding) * Num.of_nat index)%num.

(** [drawPath] of [drawTriangles]. *)
Definition drawPath (this : D3WindBarb) (index : nat) : attr_value :=
  let height := Size.height (size (fullOptions this)) in
  let triangleWidth := Dims.triangleWidth (dims (fullOptions this)) in
  let triangleHeight := Dims.triangleHeight (dims (fullOptions this)) in
  let initialX := initialX this index in
  AttrPath (initialX, height)
           ((initialX - triangleWidth)%num, height)
           (initialX, (height - triangleHeight)%num).

(** The [path] that [drawTriangles] appends for the datum of index [i]. *)
Definition triangleElement (this : D3WindBarb) (i : nat) : element :=
  let stroke := Triangle.stroke (triangle (fullOptions this)) in
  let fill := Triangle.fill (triangle (fullOptions this)) in
  let className := Triangle.className (triangle (fullOptions this)) in
  attr "class" (AttrString className)
    (attr "fill" (AttrString fill)
      (attr "stroke" (AttrString stroke)
        (attr "d" (drawPath this i) (createElement "path")))).

Definition drawTriangles (this : D3WindBarb) (q : nat) (container : element)
  : element :=
  let data := range q in
  append (enterAppend data (triangleElement this)) container.

(** The x coordinate of the bar of index [i] in [drawFullBars] and
    [drawHalfBars]: [width - (right + i * (barWidth + padding))]. *)
Definition barX (this : D3WindBarb) (right : number) (i : nat) : number :=
  let width := Size.width (size (fullOptions this)) in
  let barWidth := Bar.width (bar (fullOptions this)) in
  let padding := Bar.padding (bar (fullOptions this)) in
  (width - (right + Num.of_nat i * (barWidth + padding)))%num.

Definition barElement (this : D3WindBarb) (right : number) (y2 : number)
    (className : string) (i : nat) : element :=
  let height := Size.height (size (fullOptions this)) in
  let barWidth := Bar.width (bar (fullOptions this)) in
  let angle := Bar.angle (bar (fullOptions this)) in
  let stroke := Bar.stroke (bar (fullOptions this)) in
  attr "transform" (AttrTransform [rotate angle])
    (attr "transform-origin" (AttrOrigin (barX this right i) height "")
      (attr "class" (AttrString className)
        (attr "stroke-width" (AttrNumber barWidth)
          (attr "stroke" (AttrString stroke)
            (attr "y2" (AttrNumber y2)
              (attr "x2" (AttrNumber (barX this right i))
                (attr "y1" (AttrNumber height)
                  (attr "x1" (AttrNumber (barX this right i))
                    (createElement "line"))))))))).

(** The [line] that [drawFullBars] appends for the datum of index [i]. *)
Definition fullBarElement (this : D3WindBarb) (right : number) (i : nat)
  : element :=
  let height := Size.height (size (fullOptions this)) in
  let fullBarClassName := Bar.fullBarClassName (bar (fullOptions this)) in
  let barHeight := Dims.barHeight (dims (fullOptions this)) in
  barElement this right (height - barHeight)%num fullBarClassName i.

Definition drawFullBars (this : D3WindBarb) (q : nat) (container : element)
    (right : number) : element :=
  let data := range q in
  append (enterAppend data (fullBarElement this right)) container.

(** The [line] that [drawHalfBars] appends for the datum of index [i]. *)
Definition halfBarElement (this : D3WindBarb) (right : number) (i : nat)
  : element :=
  let height := Size.height (size (fullOptions this)) in
  let shortBarClassName := Bar.shortBarClassName (bar (fullOptions this)) in
  let barHeight := Dims.barHeight (dims (fullOptions this)) in
  barElement this right (height - barHeight / num 2)%num shortBarClassName i.

Definition drawHalfBars (this : D3WindBarb) (q : nat) (container : element)
    (right : number) : element :=
  let data := range q in
  append (enterAppend data (halfBarElement this right)) container.

Definition rootLine (this : D3WindBarb) : element :=
  let height := Size.height (size (fullOptions this)) in
  let width := Size.width (size (fullOptions this)) in
  let barWidth := Bar.width (bar (fullOptions this)) in
  let stroke := Bar.stroke (bar (fullOptions this)) in
  attrOptional "class" (AttrString <$> rootBarClassName (fullOptions this))
    (attr "stroke" (AttrString stroke)
      (attr "stroke-width" (AttrNumber barWidth)
        (attr "y2" (AttrNumber height)
          (attr "x2" (AttrNumber width)
            (attr "y1" (AttrNumber height)
              (attr "x1" (AttrNumber (num 0))
                (createElement "line"))))))).

(** [paddingR] of [drawBarbs] for the full bars:
    [barbs[50] * (triangleWidth + trianglePadding)]. *)
Definition fullBarsRight (this : D3WindBarb) (barbs : Barbs) : number :=
  let triangleWidth := Dims.triangleWidth (dims (fullOptions this)) in
  let trianglePadding := Triangle.padding (triangle (fullOptions this)) in
  (Num.of_nat (barbs50 barbs) * (triangleWidth + trianglePadding))%num.

(** [paddingR] of [drawBarbs] for the half bars:
    [barbs[50] * (triangleWidth + trianglePadding)
     + barbs[10] * (barPadding + barWidth)]. *)
Definition halfBarsRight (this : D3WindBarb) (barbs : Barbs) : number :=
  let barWidth := Bar.width (bar (fullOptions this)) in
  let barPadding := Bar.padding (bar (fullOptions this)) in
  let triangleWidth := Dims.triangleWidth (dims (fullOptions this)) in
  let trianglePadding := Triangle.padding (triangle (fullOptions this)) in
  (Num.of_nat (barbs50 barbs) * (triangleWidth + trianglePadding)
   + Num.of_nat (barbs10 barbs) * (barPadding + barWidth))%num.

(** The [g] element that [drawBarbs] appends to the svg, as it is when
    [drawBarbs] returns. *)
Definition barbsContainer (this : D3WindBarb) (barbs : Barbs) : element :=
  let height := Size.height (size (fullOptions this)) in
  let width := Size.width (size (fullOptions this)) in
  let container := createElement "g" in
  let container := append (rootLine this) container in
  let container :=
    if decide (barbs50 barbs ≠ 0)
    then drawTriangles this (barbs50 barbs) container
    else container in
  let container :=
    if decide (barbs10 barbs ≠ 0)
    then
      let paddingR := fullBarsRight this barbs in
      drawFullBars this (barbs10 barbs) container paddingR
    else container in
  let container :=
    if decide (barbs5 barbs ≠ 0)
    then
      let paddingR := halfBarsRight this barbs in
      drawHalfBars this (barbs5 barbs) container paddingR
    else container in
  attr "transform"
       (AttrTransform [translate (num 0) (- height / num 2)%num;
                       rotate (num (-90) + angle this)%num])
    (attr "transform"
          (AttrTransform [translate (num 0) (- height / num 2)%num])
      (attr "transform-origin"
            (AttrOrigin (width / num 2)%num height "px")
        container)).

Definition drawBarbs (this : D3WindBarb) (barbs : Barbs) (w : world) : world :=
  updateNode (svg this) (append (barbsContainer this barbs)) w.

(** The groups that [drawBarbs] appends after the shaft, in order. *)
Definition segmentGroups (this : D3WindBarb) (barbs : Barbs) : list element :=
  (if decide (barbs50 barbs ≠ 0)
   then [enterAppend (range (barbs50 barbs)) (triangleElement this)] else [])
  ++ (if decide (barbs10 barbs ≠ 0)
      then [enterAppend (range (barbs10 barbs))
              (fullBarElement this (fullBarsRight this barbs))] else [])
  ++ (if decide (barbs5 barbs ≠ 0)
      then [enterAppend (range (barbs5 barbs))
              (halfBarElement this (halfBarsRight this barbs))] else []).

(** What one call of [draw] appends to the svg. *)
Definition shapeOf (this : D3WindBarb) (barbs : option Barbs) : element :=
  match barbs with
  | None => circleElement this
  | Some barbs => barbsContainer this barbs
  end.

(** [draw(container?)]: returns the node of [this.svg]. *)
Definition draw (fuel : nat) (this : D3WindBarb) (container : option string)
    (w : world) : completion (nat * world) :=
  match getBarbs fuel this with
  | Returns barbs =>
      let w :=
        match barbs with
        | None => drawCircle this w
        | Some barbs => drawBarbs this barbs w
        end in
      match container with
      | Some selector =>
          if truthy selector then
            match querySelector w selector with
            | InvalidSelector => Throws SyntaxError
            | NoMatch => Returns (svg this, w)
            | Match target => Returns (svg this, appendChild target (svg this) w)
            end
          else Returns (svg this, w)
      | None => Returns (svg this, w)
      end
  | Throws e => Throws e
  | Diverges => Diverges
  end.

(** [new D3WindBarb(speed, angle, options).draw(container)]. *)
Definition render (Math : MathObject) (speed angle : number)
    (options : option PublicWindBarbOptions) (container : option string)
    (fuel : nat) (w : world) : completion (nat * world) :=
  let '(this, w) := constructor Math speed angle options w in
  draw fuel this container w.

(** ** Concrete surroundings for running the class *)

(** A rational implementation of [Math]: [PI] as 22/7 and the sine and
    cosine as their Taylor polynomials of degree 5 and 4. *)
Definition sinPoly (x : number) : number :=
  (x - x * x * x / num 6 + x * x * x * x * x / num 120)%num.

Definition cosPoly (x : number) : number :=
  (num 1 - x * x / num 2 + x * x * x * x / num 24)%num.

Definition MathRational : MathObject := {|
  Math_sin := sinPoly;
  Math_cos := cosPoly;
  Math_PI := (num 22 / num 7)%num;
|}.

(** A document with no element at all. *)
Definition emptyDocument : world :=
  {| nodes := ∅; querySelector := λ _, NoMatch; attached := ∅ |}.

(** A document whose element [0] has the id [container]. *)
Definition containerDocument : world :=
  {| nodes := ∅;
     querySelector := λ s,
       if decide (s = "#container") then Match 0
       else if decide (s = "#") then InvalidSelector
       else NoMatch;
     attached := {[ 0 := [] ]} |}.

(** The options object [{ conversionFactor: f }]. *)
Definition optionsWithFactor (f : number) : PublicWindBarbOptions := {|
  pSize := None;
  pRootBarClassName := None;
  pSvgId := None;
  pConversionFactor := Some f;
  pBar := None;
  pTriangle := None;
  pCircle := None;
|}.

(** [new D3WindBarb(85, 90)], the instance of the first test. *)
Definition barb85 : D3WindBarb :=
  (constructor MathRational (num 85) (num 90) None emptyDocument).1.


(** [new D3WindBarb(40, 90, { conversionFactor: ConversionFactors.MpsToKnot })],
    the instance of the second test. *)
Definition barbMps : D3WindBarb :=
  (constructor MathRational (num 40) (num 90)
     (Some (optionsWithFactor ConversionFactors.MpsToKnot)) emptyDocument).1.

(** [new D3WindBarb(2 ** 60, 90)]: the speed [1152921504606846976], a
    binary64 value, whose neighbours are 256 away. *)
Definition barbHuge : D3WindBarb :=
  (constructor MathRational (num (2 ^ 60)) (num 90) None emptyDocument).1.

(** [new D3WindBarb(187.5, 90,
    { conversionFactor: ConversionFactors.MpsToKnot })]. *)
Definition barbFast : D3WindBarb :=
  (constructor MathRational (Fin (375 # 2)) (num 90)
     (Some (optionsWithFactor ConversionFactors.MpsToKnot)) emptyDocument).1.




(** The rational behind a finite number. *)
Definition finiteValue (x : number) : Q :=
  match x with
  | Fin q => q
  | _ => 0%Q
  end.

(** The options object [{ size: { width: -80, height: 0 },
    circle: { radius: -10 } }]. *)
Definition malformedOptions : PublicWindBarbOptions := {|
  pSize := Some {| PartialSize.width := Some (num (-80));
                   PartialSize.height := Some (num 0) |};
  pRootBarClassName := None;
  pSvgId := None;
  pConversionFactor := None;
  pBar := None;
  pTriangle := None;
  pCircle := Some {| PartialCircle.stroke := None;
                     PartialCircle.fill := None;
                     PartialCircle.radius := Some (num (-10));
                     PartialCircle.strokeWidth := None;
                     PartialCircle.className := None |};
|}.

(** [new D3WindBarb(-3, 90)]. *)
Definition barbNegativeSpeed : D3WindBarb :=
  (constructor MathRational (num (-3)) (num 90) None emptyDocument).1.

(** [new D3WindBarb(0, 90, malformedOptions)]. *)
Definition barbMalformed : D3WindBarb :=
  (constructor MathRational (num 0) (num 90) (Some malformedOptions)
     emptyDocument).1.

(** The state that a completed [draw] leaves; [w] when it does not
    complete. *)
Definition worldAfter (result : completion (nat * world)) (w : world) : world :=
  match result with
  | Returns (_, w') => w'
  | _ => w
  end.

(** [new D3WindBarb(10, 90).draw()] twice over, the second instance made
    in the state that the first render left. *)
Definition firstRender : completion (nat * world) :=
  render MathRational (num 10) (num 90) None None 3 emptyDocument.

Definition secondRender : completion (nat * world) :=
  render MathRational (num 10) (num 90) None None 3
    (worldAfter firstRender emptyDocument).

(** The options object [{ svgId: 'wind-barb-root' }]. *)
Definition optionsWithSvgId : PublicWindBarbOptions := {|
  pSize := None;
  pRootBarClassName := None;
  pSvgId := Some "wind-barb-root";
  pConversionFactor := None;
  pBar := None;
  pTriangle := None;
  pCircle := None;
|}.

(** [new D3WindBarb(40, 0, { svgId: 'wind-barb-root' })], the instance of
    the fourth test, in the document that has the element [#container],
    and the state that its construction leaves. *)
Definition barbWithId : D3WindBarb :=
  (constructor MathRational (num 40) (num 0) (Some optionsWithSvgId)
     containerDocument).1.

Definition documentWithBarb : world :=
  (constructor MathRational (num 40) (num 0) (Some optionsWithSvgId)
     containerDocument).2.

(** ** Observations on an element tree *)

(** The descendants of an element in document order. *)
Fixpoint descendants (e : element) : list element :=
  match e with
  | Element _ _ children =>
      flat_map (λ c, c :: descendants c) children
  end.

Definition getElementsByTagName (tag : string) (e : element) : list element :=
  List.filter (λ c, String.eqb (tagName c) tag) (descendants e).

(** ASCII whitespace separates the names in a [class] attribute and in the
    argument of [getElementsByClassName]: tab, line feed, form feed,
    carriage return and space. *)
Definition isAsciiWhitespace (c : Ascii.ascii) : bool :=
  (Ascii.eqb c "009" || Ascii.eqb c "010" || Ascii.eqb c "012"
   || Ascii.eqb c "013" || Ascii.eqb c " ")%char.

(** The tokens of [s], split on ASCII whitespace; [current] is the token
    being read. *)
Fixpoint splitTokens (current : string) (s : string) : list string :=
  match s with
  | EmptyString => if truthy current then [current] else []
  | String c rest =>
      if isAsciiWhitespace c
      then (if truthy current then [current] else [])
           ++ splitTokens EmptyString rest
      else splitTokens (current +:+ String c EmptyString) rest
  end.

Definition classTokens (s : string) : list string :=
  splitTokens EmptyString s.

(** [element.classList], the tokens of the [class] attribute. *)
Definition classList (e : element) : list string :=
  match attributes e !! "class" with
  | Some (AttrString s) => classTokens s
  | _ => []
  end.

(** Whether [getElementsByClassName(names)] selects [e]: [names] holds at
    least one token, and every token of [names] is one of the classes of
    [e]. The names are compared as they are written, as in a document that
    is not in quirks mode. *)
Definition hasClass (names : string) (e : element) : bool :=
  match classTokens names with
  | [] => false
  | wanted => forallb (λ t, existsb (String.eqb t) (classList e)) wanted
  end.

Definition getElementsByClassName (names : string) (e : element)
  : list element :=
  List.filter (hasClass names) (descendants e).



(** The svg element behind the reference that a completed [draw] returns;
    [None] when [draw] throws or never returns. *)
Definition returnedSvg (result : completion (nat * world)) : option element :=
  match result with
  | Returns (r, w) => nodes w !! r
  | _ => None
  end.

(** The reference that a completed [draw] returns, with the state. *)
Definition returnedRef (result : completion (nat * world))
  : option (nat * world) :=
  match result with
  | Returns rw => Some rw
  | _ => None
  end.

(** The render returns, and the svg that it returns holds exactly the
    children [shapes]. *)
Definition rendersChildren (Math : MathObject) (speed angle : number)
    (options : option PublicWindBarbOptions) (container : option string)
    (fuel : nat) (w : world) (shapes : list element) : Prop :=
  exists r w' root,
    render Math speed angle options container fuel w = Returns (r, w')
    /\ nodes w' !! r = Some root
    /\ tagName root = "svg"
    /\ childNodes root = shapes.

(** ** The loop of [getBarbs], with the order of its subtractions

    [getBarbsLoopTrace] is [getBarbsLoop] that also records, in order, the
    amount subtracted by each run of the body. *)
Fixpoint getBarbsLoopTrace (fuel : nat) (k : number) (res : Barbs)
    (trace : list Z) {struct fuel} : completion (Barbs * list Z) :=
  if (k >? num 0)%num then
    match fuel with
    | O => Diverges
    | S fuel =>
        if (Num.sub64 k (num 50) >=? num 0)%num then
          getBarbsLoopTrace fuel (Num.sub64 k (num 50)) (incr50 res)
            (trace ++ [50%Z])
        else if (Num.sub64 k (num 10) >=? num 0)%num then
          getBarbsLoopTrace fuel (Num.sub64 k (num 10)) (incr10 res)
            (trace ++ [10%Z])
        else if (Num.sub64 k (num 5) >=? num 0)%num then
          getBarbsLoopTrace fuel (Num.sub64 k (num 5)) (incr5 res)
            (trace ++ [5%Z])
        else Returns (res, trace)
    end
  else Returns (res, trace).

Definition addBarbs (res : Barbs) (n50 n10 n5 : nat) : Barbs :=
  {| barbs50 := barbs50 res + n50;
     barbs10 := barbs10 res + n10;
     barbs5 := barbs5 res + n5 |}.

(** The decomposition that the specification describes: the largest
    magnitude first. *)
Definition greedy (K : Z) : Barbs :=
  let count50 := (K / 50)%Z in
  let count10 := ((K - 50 * count50) / 10)%Z in
  let count5 := ((K - 50 * count50 - 10 * count10) / 5)%Z in
  {| barbs50 := Z.to_nat count50;
     barbs10 := Z.to_nat count10;
     barbs5 := Z.to_nat count5 |}.

(** The order of subtractions that never interleaves the magnitudes. *)
Definition greedyTrace (b : Barbs) : list Z :=
  repeat 50%Z (barbs50 b) ++ repeat 10%Z (barbs10 b) ++ repeat 5%Z (barbs5 b).

(** The number of runs of the loop body on [K] knots. *)
Definition stepsOf (K : Z) : nat :=
  barbs50 (greedy K) + barbs10 (greedy K) + barbs5 (greedy K).

(** Fuel that lets the loop of [getBarbs] finish: any amount when the
    knots are [NaN] or [-Infinity]; more than a fifth of the knots (so at
    least one unit) when they are finite and at most [2 ^ 53], where the
    subtractions of the loop are exact; and none when they are [+Infinity]
    or larger than [2 ^ 53], where a subtraction can leave the loop
    variable as it is. *)
Definition enoughFuel (this : D3WindBarb) (fuel : nat) : Prop :=
  match knotsOf this with
  | NaN => True
  | Infinity negative => negative = true
  | Fin q =>
      (Qfloor q <= 2 ^ 53)%Z /\ (Z.to_nat (Qfloor q / 5) < fuel)%nat
  end.

(** The selector, if one is given, is well formed for [querySelector]. *)
Definition selectorAccepted (w : world) (container : option string) : Prop :=
  match container with
  | Some selector => querySelector w selector ≠ InvalidSelector
  | None => True
  end.

(** The world after the attachment step of [draw]. *)
Definition attachStep (this : D3WindBarb) (container : option string)
    (w : world) : world :=
  match container with
  | Some selector =>
      if truthy selector then
        match querySelector w selector with
        | Match target => appendChild target (svg this) w
        | _ => w
        end
      else w
  | None => w
  end.

(** ** Callers of the class *)

(** [{ ...options, rootBarClassName: name }]. *)
Definition withRootBarClassName (name : option string)
    (o : PublicWindBarbOptions) : PublicWindBarbOptions := {|
  pSize := pSize o;
  pRootBarClassName := name;
  pSvgId := pSvgId o;
  pConversionFactor := pConversionFactor o;
  pBar := pBar o;
  pTriangle := pTriangle o;
  pCircle := pCircle o;
|}.

(** [draw()] called [n] times in a row on one instance; the state after
    the last call. *)
Fixpoint drawTimes (n : nat) (fuel : nat) (this : D3WindBarb) (w : world)
  : completion world :=
  match n with
  | O => Returns w
  | S n =>
      match drawTimes n fuel this w with
      | Returns w =>
          match draw fuel this None w with
          | Returns (_, w) => Returns w
          | Throws e => Throws e
          | Diverges => Diverges
          end
      | Throws e => Throws e
      | Diverges => Diverges
      end
  end.

(** Every reference that [attached] lists is the reference of a node. *)
Definition attachedAreNodes (w : world) : Prop :=
  forall (target : nat) (children : list nat) (r : nat),
    attached w !! target = Some children -> r ∈ children ->
    r ∈ dom (nodes w).

(** * Part II: lemmas and theorems *)


(** ** Numbers *)

Lemma Qred_inject_Z (z : Z) : Qred (inject_Z z) = inject_Z z.
Proof. apply Qred_identity. simpl. apply Z.gcd_1_r. Qed.

Lemma fin_inject_Z (z : Z) : Num.fin (inject_Z z) = num z.
Proof. unfold Num.fin. now rewrite Qred_inject_Z. Qed.

Lemma fin_eq (a b : Q) : a == b -> Num.fin a = Num.fin b.
Proof. intros H. unfold Num.fin. f_equal. now apply Qred_complete. Qed.

Lemma sub_num (a b : Z) : (num a - num b)%num = num (a - b).
Proof.
  transitivity (Num.fin (inject_Z (a - b))); [| apply fin_inject_Z].
  apply fin_eq. unfold Z.sub. rewrite inject_Z_plus, inject_Z_opp. reflexivity.
Qed.

Lemma Qle_bool_inject_Z (a b : Z) :
  Qle_bool (inject_Z a) (inject_Z b) = (a <=? b)%Z.
Proof. unfold Qle_bool. simpl. now rewrite !Z.mul_1_r. Qed.

Lemma ge_num (a b : Z) : (num a >=? num b)%num = (b <=? a)%Z.
Proof. apply Qle_bool_inject_Z. Qed.

Lemma gt_num (a b : Z) : (num a >? num b)%num = (b <? a)%Z.
Proof.
  unfold Num.gt, num, Num.of_Z, Num.lt. rewrite Qle_bool_inject_Z.
  now rewrite Z.ltb_antisym.
Qed.

Lemma lt_num (a b : Z) : (num a <? num b)%num = (a <? b)%Z.
Proof. apply (gt_num b a). Qed.

(** ** Powers of two *)

Lemma pow2_pos (e : Z) : (0 < 2 ^ e)%Q.
Proof. apply Qpower_0_lt. reflexivity. Qed.

Lemma pow2_Z (e : Z) : (0 <= e)%Z -> (2 ^ e == inject_Z (2 ^ e))%Q.
Proof. intros H. symmetry. apply (Zpower_Qpower 2 e H). Qed.

Lemma pow2_le (a b : Z) : (a <= b)%Z -> (2 ^ a <= 2 ^ b)%Q.
Proof. intros H. apply Qpower_le_compat_l; [exact H|]. discriminate. Qed.

Lemma pow2_plus (a b : Z) : (2 ^ (a + b) == 2 ^ a * 2 ^ b)%Q.
Proof. apply Qpower_plus. discriminate. Qed.

Lemma pow2_opp (a : Z) : (2 ^ (- a) == / 2 ^ a)%Q.
Proof. apply Qpower_opp. Qed.

Lemma pow2_cancel (q : Q) (e : Z) : (q / 2 ^ e * 2 ^ e == q)%Q.
Proof. field. pose proof (pow2_pos e). lra. Qed.

(** ** The binade of a rational *)

Lemma frac_lt_pow2 (N : Z) (d : positive) (a b : Z) :
  (0 <= a)%Z -> (0 <= b)%Z ->
  (N * 2 ^ b < 2 ^ a * Zpos d)%Z -> (N # d < 2 ^ (a - b))%Q.
Proof.
  intros Ha Hb H. rewrite Qpower_minus by discriminate.
  rewrite (pow2_Z a Ha), (pow2_Z b Hb).
  apply Qlt_shift_div_l.
  - change 0%Q with (inject_Z 0). rewrite <- Zlt_Qlt. apply Z.pow_pos_nonneg; lia.
  - unfold Qlt, Qmult, inject_Z. cbn [Qnum Qden]. lia.
Qed.

Lemma pow2_le_frac (N : Z) (d : positive) (a b : Z) :
  (0 <= a)%Z -> (0 <= b)%Z ->
  (2 ^ a * Zpos d <= N * 2 ^ b)%Z -> (2 ^ (a - b) <= N # d)%Q.
Proof.
  intros Ha Hb H. rewrite Qpower_minus by discriminate.
  rewrite (pow2_Z a Ha), (pow2_Z b Hb).
  apply Qle_shift_div_r.
  - change 0%Q with (inject_Z 0). rewrite <- Zlt_Qlt. apply Z.pow_pos_nonneg; lia.
  - unfold Qle, Qmult, inject_Z. cbn [Qnum Qden]. lia.
Qed.

Lemma binade_spec (q : Q) :
  ~ q == 0 -> (2 ^ Num.binade q <= Qabs q < 2 ^ (Num.binade q + 1))%Q.
Proof.
  intros Hq. unfold Num.binade.
  destruct q as [n d]. cbn [Qnum Qden].
  assert (Hn : (0 < Z.abs n)%Z).
  { destruct (Z.eq_dec n 0%Z) as [->|]; [|lia]. exfalso. apply Hq. reflexivity. }
  change (Qabs (n # d)) with (Z.abs n # d).
  set (N := Z.abs n) in *.
  pose proof (Z.log2_spec N Hn) as [HNl HNu].
  pose proof (Z.log2_spec (Zpos d) ltac:(lia)) as [HDl HDu].
  pose proof (Z.log2_nonneg N) as HlN.
  pose proof (Z.log2_nonneg (Zpos d)) as HlD.
  set (ln := Z.log2 N) in *. set (ld := Z.log2 (Zpos d)) in *.
  assert (Hup : (N # d < 2 ^ (ln - ld + 1))%Q).
  { replace (ln - ld + 1)%Z with (Z.succ ln - ld)%Z by lia.
    apply frac_lt_pow2; [lia|lia|].
    assert (0 < 2 ^ ld)%Z by (apply Z.pow_pos_nonneg; lia). nia. }
  assert (Hlo : (2 ^ (ln - ld - 1) <= N # d)%Q).
  { replace (ln - ld - 1)%Z with (ln - Z.succ ld)%Z by lia.
    apply pow2_le_frac; [lia|lia|].
    assert (0 < 2 ^ ln)%Z by (apply Z.pow_pos_nonneg; lia). nia. }
  destruct (Qle_bool (2 ^ (ln - ld)) (N # d)) eqn:E.
  - apply Qle_bool_iff in E. split; assumption.
  - split; [exact Hlo|].
    replace (ln - ld - 1 + 1)%Z with (ln - ld)%Z by lia.
    apply Qnot_le_lt. intros H. apply Qle_bool_iff in H. congruence.
Qed.

Lemma binade_ge (q : Q) (e : Z) : (2 ^ e <= Qabs q)%Q -> (e <= Num.binade q)%Z.
Proof.
  intros H.
  assert (Hq : ~ q == 0).
  { intros E. assert (Qabs q == 0)%Q by (rewrite E; reflexivity).
    pose proof (pow2_pos e). lra. }
  destruct (binade_spec q Hq) as [_ Hu].
  destruct (Z_lt_le_dec (Num.binade q) e) as [Hlt|]; [|assumption].
  exfalso. pose proof (pow2_le (Num.binade q + 1) e ltac:(lia)). lra.
Qed.

Lemma binade_lt (q : Q) (e : Z) :
  ~ q == 0 -> (Qabs q < 2 ^ e)%Q -> (Num.binade q < e)%Z.
Proof.
  intros Hq H. destruct (binade_spec q Hq) as [Hl _].
  destruct (Z_lt_le_dec (Num.binade q) e) as [|Hge]; [assumption|].
  exfalso. pose proof (pow2_le e (Num.binade q) Hge). lra.
Qed.

(** ** Rounding to an integer, ties to even *)

Lemma roundHalfEven_cases (q : Q) :
  let f := Qfloor q in
  (inject_Z f <= q < inject_Z f + 1)%Q
  /\ ((Num.roundHalfEven q = f /\ (q - inject_Z f <= 1 # 2)%Q)
      \/ (Num.roundHalfEven q = (f + 1)%Z /\ (1 # 2 <= q - inject_Z f)%Q)).
Proof.
  intros f. pose proof (Qfloor_le q) as Hlo. pose proof (Qlt_floor q) as Hhi.
  rewrite inject_Z_plus in Hhi. change (inject_Z 1) with 1%Q in Hhi.
  fold f in Hlo, Hhi. split; [split; assumption|].
  unfold Num.roundHalfEven. fold f.
  destruct (Qcompare_spec (q - inject_Z f) (1 # 2)) as [E|E|E].
  - destruct (Z.even f); [left|right]; split; try reflexivity; lra.
  - left. split; [reflexivity|lra].
  - right. split; [reflexivity|lra].
Qed.

Lemma roundHalfEven_within_half (q : Q) :
  (Qabs (inject_Z (Num.roundHalfEven q) - q) <= 1 # 2)%Q.
Proof.
  destruct (roundHalfEven_cases q) as [[Hlo Hhi] [[-> H] | [-> H]]];
    apply Qabs_Qle_condition.
  - split; lra.
  - rewrite inject_Z_plus. change (inject_Z 1) with 1%Q. split; lra.
Qed.

Lemma roundHalfEven_inject_Z (z : Z) : Num.roundHalfEven (inject_Z z) = z.
Proof.
  unfold Num.roundHalfEven. rewrite Qfloor_Z.
  destruct (Qcompare_spec (inject_Z z - inject_Z z) (1 # 2)) as [E|E|E];
    [exfalso; lra|reflexivity|exfalso; lra].
Qed.

Lemma roundHalfEven_comp (p q : Q) :
  p == q -> Num.roundHalfEven p = Num.roundHalfEven q.
Proof.
  intros H. unfold Num.roundHalfEven.
  rewrite (Qfloor_comp p q H).
  assert (E : (p - inject_Z (Qfloor q) ?= 1 # 2)%Q
              = (q - inject_Z (Qfloor q) ?= 1 # 2)%Q) by (now rewrite H).
  rewrite E. reflexivity.
Qed.

Lemma roundHalfEven_ge (n : Z) (q : Q) :
  (inject_Z n <= q)%Q -> (n <= Num.roundHalfEven q)%Z.
Proof.
  intros H. pose proof (Qfloor_resp_le _ _ H) as Hf. rewrite Qfloor_Z in Hf.
  destruct (roundHalfEven_cases q) as [_ [[-> _] | [-> _]]]; lia.
Qed.

Lemma roundHalfEven_le (n : Z) (q : Q) :
  (q <= inject_Z n)%Q -> (Num.roundHalfEven q <= n)%Z.
Proof.
  intros H. pose proof (Qfloor_resp_le _ _ H) as Hf. rewrite Qfloor_Z in Hf.
  destruct (roundHalfEven_cases q) as [[Hlo _] [[-> _] | [-> Hh]]]; [lia|].
  destruct (Z.eq_dec (Qfloor q) n) as [E|]; [|lia].
  exfalso. rewrite E in Hh. lra.
Qed.

(** ** binary64 rounding *)

Lemma isZero_false (q : Q) : ~ q == 0 -> Num.isZero q = false.
Proof.
  intros H. unfold Num.isZero. destruct (Qeq_bool q 0) eqn:E; [|reflexivity].
  apply Qeq_bool_iff in E. contradiction.
Qed.

Lemma isZero_true (q : Q) : q == 0 -> Num.isZero q = true.
Proof. intros H. unfold Num.isZero. now apply Qeq_bool_iff. Qed.

Lemma Qle_bool_false (p q : Q) : (q < p)%Q -> Qle_bool p q = false.
Proof.
  intros H. destruct (Qle_bool p q) eqn:E; [|reflexivity].
  apply Qle_bool_iff in E. lra.
Qed.

Lemma round64_fixed (q : Q) (z : Z) :
  ~ q == 0 ->
  (q / 2 ^ (Z.max (Num.binade q) (-1022) - 52) == inject_Z z)%Q ->
  (Qabs q < 2 ^ 1024)%Q ->
  Num.round64 q = Num.fin q.
Proof.
  intros Hq Hz Hlt. unfold Num.round64. rewrite (isZero_false q Hq).
  set (e := (Z.max (Num.binade q) (-1022) - 52)%Z) in *.
  rewrite (roundHalfEven_comp _ _ Hz), roundHalfEven_inject_Z.
  assert (Hr : (inject_Z z * 2 ^ e == q)%Q)
    by (rewrite <- Hz; apply pow2_cancel).
  rewrite Qle_bool_false by (rewrite Hr; exact Hlt).
  apply fin_eq, Hr.
Qed.

Lemma Qabs_inject_Z (z : Z) : Qabs (inject_Z z) = inject_Z (Z.abs z).
Proof. reflexivity. Qed.

(** An integer of magnitude at most [2 ^ 53] is a binary64 value. *)
Lemma round64_num (K : Z) :
  (Z.abs K <= 2 ^ 53)%Z -> Num.round64 (inject_Z K) = num K.
Proof.
  intros HK. destruct (Z.eq_dec K 0%Z) as [->|H0]; [reflexivity|].
  rewrite <- fin_inject_Z.
  assert (Hq : ~ inject_Z K == 0).
  { change 0%Q with (inject_Z 0). rewrite inject_Z_injective. exact H0. }
  assert (Hlo : (0 <= Num.binade (inject_Z K))%Z).
  { apply binade_ge. rewrite Qabs_inject_Z. change (2 ^ 0)%Q with (inject_Z 1).
    rewrite <- Zle_Qle. lia. }
  assert (Hhi : (Num.binade (inject_Z K) < 54)%Z).
  { apply binade_lt; [exact Hq|]. rewrite Qabs_inject_Z, (pow2_Z 54) by lia.
    rewrite <- Zlt_Qlt. lia. }
  destruct (binade_spec _ Hq) as [Hbl Hbu]. rewrite Qabs_inject_Z in Hbl, Hbu.
  set (b := Num.binade (inject_Z K)) in *.
  assert (Hsmall : (Qabs (inject_Z K) < 2 ^ 1024)%Q).
  { rewrite Qabs_inject_Z, (pow2_Z 1024) by lia. rewrite <- Zlt_Qlt.
    assert (2 ^ 53 < 2 ^ 1024)%Z by (apply Z.pow_lt_mono_r; lia). lia. }
  destruct (Z_le_gt_dec b 52) as [Hb|Hb].
  - apply (round64_fixed _ (K * 2 ^ (52 - b)) Hq); [|exact Hsmall].
    fold b. rewrite Z.max_l by lia.
    rewrite inject_Z_mult, <- (pow2_Z (52 - b)) by lia.
    replace (52 - b)%Z with (- (b - 52))%Z by lia. rewrite pow2_opp. reflexivity.
  - assert (Eb : b = 53%Z) by lia.
    rewrite Eb, (pow2_Z 53) in Hbl by lia. rewrite <- Zle_Qle in Hbl.
    assert (EK : Z.abs K = (2 ^ 53)%Z) by lia.
    apply (round64_fixed _ (K / 2) Hq); [|exact Hsmall].
    fold b. rewrite Eb.
    destruct (Z.abs_eq_or_opp K) as [E|E]; rewrite E in EK.
    + rewrite EK. vm_compute. reflexivity.
    + assert (K = - 2 ^ 53)%Z as -> by lia. vm_compute. reflexivity.
Qed.

Lemma isNegative_spec (q : Q) :
  (Num.isNegative q = true /\ (q < 0)%Q) \/ (Num.isNegative q = false /\ (0 <= q)%Q).
Proof.
  unfold Num.isNegative. destruct (Qle_bool 0 q) eqn:E.
  - right. split; [reflexivity|]. now apply Qle_bool_iff.
  - left. split; [reflexivity|]. apply Qnot_le_lt. intros H.
    apply Qle_bool_iff in H. congruence.
Qed.

Lemma round64_cases (q : Q) :
  ~ q == 0 ->
  let e := (Z.max (Num.binade q) (-1022) - 52)%Z in
  let m := Num.roundHalfEven (q / 2 ^ e) in
  Num.round64 q = Infinity (Num.isNegative q)
  \/ Num.round64 q = Num.fin (inject_Z m * 2 ^ e).
Proof.
  intros Hq e m. unfold Num.round64. rewrite (isZero_false q Hq).
  fold e. fold m.
  destruct (Qle_bool _ _); [left|right]; reflexivity.
Qed.

(** Rounding keeps the sign. *)
Lemma round64_nonpos (q : Q) :
  (q <= 0)%Q ->
  Num.round64 q = Infinity true
  \/ exists r, Num.round64 q = Fin r /\ (r <= 0)%Q.
Proof.
  intros Hle. destruct (Qeq_dec q 0) as [E|Hq].
  - right. exists 0%Q. split; [|lra].
    unfold Num.round64. rewrite (isZero_true q E). reflexivity.
  - destruct (round64_cases q Hq) as [H|H]; cbv zeta in H.
    + left. rewrite H.
      destruct (isNegative_spec q) as [[-> _]|[_ H0]]; [reflexivity|].
      exfalso. apply Hq. lra.
    + right. eexists. split; [exact H|].
      rewrite Qred_correct.
      set (e := (Z.max (Num.binade q) (-1022) - 52)%Z).
      pose proof (pow2_pos e) as He.
      assert (Hm : (Num.roundHalfEven (q / 2 ^ e) <= 0)%Z).
      { apply roundHalfEven_le. change (inject_Z 0) with 0%Q.
        apply Qle_shift_div_r; [exact He|]. lra. }
      assert (inject_Z (Num.roundHalfEven (q / 2 ^ e)) <= 0)%Q
        by (change 0%Q with (inject_Z 0); rewrite <- Zle_Qle; exact Hm).
      nra.
Qed.

(** At [2 ^ 52] and above every binary64 value is an integer. *)
Lemma round64_large (q : Q) :
  (2 ^ 52 <= q)%Q ->
  Num.round64 q = Infinity false
  \/ exists z, Num.round64 q = num z /\ (2 ^ 52 <= z)%Z.
Proof.
  intros Hge. pose proof (pow2_pos 52) as H52.
  assert (Hq : ~ q == 0) by (intros E; lra).
  assert (Habs : Qabs q == q) by (apply Qabs_pos; lra).
  assert (Hb : (52 <= Num.binade q)%Z) by (apply binade_ge; rewrite Habs; exact Hge).
  destruct (binade_spec q Hq) as [Hbl _]. rewrite Habs in Hbl.
  destruct (round64_cases q Hq) as [H|H]; cbv zeta in H.
  - left. rewrite H.
    destruct (isNegative_spec q) as [[_ Hn]|[-> _]]; [lra|reflexivity].
  - right. rewrite Z.max_l in H by lia.
    set (e := (Num.binade q - 52)%Z) in *.
    set (m := Num.roundHalfEven (q / 2 ^ e)) in *.
    exists (m * 2 ^ e)%Z. split.
    + rewrite H, <- fin_inject_Z. apply fin_eq.
      rewrite inject_Z_mult, <- (pow2_Z e) by lia. reflexivity.
    + assert (Hm : (2 ^ 52 <= m)%Z).
      { apply roundHalfEven_ge. rewrite <- (pow2_Z 52) by lia.
        apply Qle_shift_div_l; [apply pow2_pos|].
        rewrite <- pow2_plus. replace (52 + e)%Z with (Num.binade q) by lia.
        exact Hbl. }
      assert (0 < 2 ^ e)%Z by (apply Z.pow_pos_nonneg; lia).
      nia.
Qed.

(** The relative error of a rounding is at most [2 ^ -53], but for the
    values below the normal range, where the absolute error is at most
    [2 ^ -1075]. *)
Lemma round64_error (q r : Q) :
  Num.round64 q = Fin r ->
  (Qabs (r - q) <= Qabs q / 2 ^ 53 + 2 ^ (-1075))%Q.
Proof.
  intros H. pose proof (Qabs_nonneg q) as Hq0.
  pose proof (pow2_pos 53) as H53. pose proof (pow2_pos (-1075)) as Htiny.
  assert (Hrhs : (0 <= Qabs q / 2 ^ 53)%Q).
  { apply Qle_shift_div_l; [exact H53|]. lra. }
  destruct (Qeq_dec q 0) as [E|Hq].
  - unfold Num.round64 in H. rewrite (isZero_true q E) in H.
    injection H as <-. apply Qabs_Qle_condition. split; lra.
  - destruct (round64_cases q Hq) as [H'|H']; cbv zeta in H';
      rewrite H' in H; [discriminate|].
    injection H as <-. rewrite Qred_correct.
    destruct (binade_spec q Hq) as [Hbl _].
    set (b := Num.binade q) in *.
    set (e := (Z.max b (-1022) - 52)%Z) in *.
    pose proof (pow2_pos e) as He.
    pose proof (roundHalfEven_within_half (q / 2 ^ e)) as Hm.
    set (m := inject_Z (Num.roundHalfEven (q / 2 ^ e))) in *.
    apply Qabs_Qle_condition in Hm. destruct Hm as [Hm1 Hm2].
    pose proof (pow2_cancel q e) as Hc.
    set (x := (q / 2 ^ e)%Q) in *.
    assert (Hbound : ((1 # 2) * 2 ^ e <= Qabs q / 2 ^ 53 + 2 ^ (-1075))%Q).
    { destruct (Z_le_gt_dec (-1022) b) as [Hn|Hn].
      - assert (Ee : ((1 # 2) * 2 ^ e == 2 ^ b / 2 ^ 53)%Q).
        { unfold e. rewrite Z.max_l by lia.
          replace (b - 52)%Z with (b + - 53 + 1)%Z by lia.
          rewrite !pow2_plus.
          assert (E53 : (2 ^ (-53) == / 2 ^ 53)%Q) by reflexivity.
          rewrite E53. change (2 ^ 1)%Q with 2%Q. field. }
        rewrite Ee.
        assert (2 ^ b / 2 ^ 53 <= Qabs q / 2 ^ 53)%Q.
        { unfold Qdiv. apply Qmult_le_compat_r; [exact Hbl|].
          apply Qinv_le_0_compat. lra. }
        lra.
      - assert (Ee : ((1 # 2) * 2 ^ e == 2 ^ (-1075))%Q).
        { unfold e. rewrite Z.max_r by lia. vm_compute. reflexivity. }
        rewrite Ee. lra. }
    assert (H1 : ((m - x) * 2 ^ e <= (1 # 2) * 2 ^ e)%Q)
      by (apply Qmult_le_compat_r; lra).
    assert (H2 : (- (1 # 2) * 2 ^ e <= (m - x) * 2 ^ e)%Q)
      by (apply Qmult_le_compat_r; lra).
    assert (Hd : (m * 2 ^ e - q == (m - x) * 2 ^ e)%Q) by (rewrite <- Hc; ring).
    rewrite Hd. apply Qabs_Qle_condition. split; lra.
Qed.

Lemma binade_comp (p q : Q) :
  ~ q == 0 -> p == q -> Num.binade p = Num.binade q.
Proof.
  intros Hq H.
  assert (Hp : ~ p == 0) by (rewrite H; exact Hq).
  destruct (binade_spec p Hp) as [Hpl _], (binade_spec q Hq) as [Hql _].
  assert (Hab : Qabs p == Qabs q) by (rewrite H; reflexivity).
  assert (Num.binade q <= Num.binade p)%Z
    by (apply binade_ge; rewrite Hab; exact Hql).
  assert (Num.binade p <= Num.binade q)%Z
    by (apply binade_ge; rewrite <- Hab; exact Hpl).
  lia.
Qed.

Lemma round64_comp (p q : Q) : p == q -> Num.round64 p = Num.round64 q.
Proof.
  intros H. unfold Num.round64.
  destruct (Qeq_dec q 0) as [E|Hq].
  - rewrite (isZero_true q E), (isZero_true p) by (rewrite H; exact E).
    reflexivity.
  - rewrite (isZero_false q Hq), (isZero_false p) by (rewrite H; exact Hq).
    rewrite (binade_comp p q Hq H).
    set (e := (Z.max (Num.binade q) (-1022) - 52)%Z).
    rewrite (roundHalfEven_comp (p / 2 ^ e) (q / 2 ^ e)) by (rewrite H; reflexivity).
    assert (En : Num.isNegative p = Num.isNegative q).
    { unfold Num.isNegative. f_equal.
      destruct (Qle_bool 0 q) eqn:Eq.
      - apply Qle_bool_iff. rewrite H. now apply Qle_bool_iff.
      - destruct (Qle_bool 0 p) eqn:Ep; [|reflexivity].
        apply Qle_bool_iff in Ep. rewrite H in Ep.
        apply Qle_bool_iff in Ep. congruence. }
    rewrite En. reflexivity.
Qed.

(** The subtractions and products of integers are exact as long as the
    result is at most [2 ^ 53] in magnitude. *)
Lemma sub64_num (a b : Z) :
  (Z.abs (a - b) <= 2 ^ 53)%Z -> Num.sub64 (num a) (num b) = num (a - b).
Proof.
  intros H. rewrite <- (round64_num (a - b) H).
  cbn [Num.sub64 num Num.of_Z]. apply round64_comp.
  unfold Z.sub. rewrite inject_Z_plus, inject_Z_opp. reflexivity.
Qed.

Lemma mul64_num (a b : Z) :
  (Z.abs (a * b) <= 2 ^ 53)%Z -> Num.mul64 (num a) (num b) = num (a * b).
Proof.
  intros H. rewrite <- (round64_num (a * b) H).
  cbn [Num.mul64 num Num.of_Z]. apply round64_comp.
  rewrite inject_Z_mult. reflexivity.
Qed.

(** ** The loop of [getBarbs] on integer knots *)

Lemma two53 : (2 ^ 53 = 9007199254740992)%Z.
Proof. reflexivity. Qed.

Lemma Zleb_shift (z c : Z) : (0 <=? z - c)%Z = (c <=? z)%Z.
Proof. destruct (Z.leb_spec 0 (z - c)), (Z.leb_spec c z); lia. Qed.

(** Up to [2 ^ 53] knots a run of the body computes on the integers. *)
Lemma getBarbsLoopTrace_num (fuel : nat) (z : Z) (res : Barbs) (tr : list Z) :
  (z <= 2 ^ 53)%Z ->
  getBarbsLoopTrace fuel (num z) res tr =
  if (0 <? z)%Z then
    match fuel with
    | O => Diverges
    | S fuel =>
        if (50 <=? z)%Z then
          getBarbsLoopTrace fuel (num (z - 50)) (incr50 res) (tr ++ [50%Z])
        else if (10 <=? z)%Z then
          getBarbsLoopTrace fuel (num (z - 10)) (incr10 res) (tr ++ [10%Z])
        else if (5 <=? z)%Z then
          getBarbsLoopTrace fuel (num (z - 5)) (incr5 res) (tr ++ [5%Z])
        else Returns (res, tr)
    end
  else Returns (res, tr).
Proof.
  intros Hz. pose proof two53 as H53.
  destruct fuel as [|fuel]; cbn [getBarbsLoopTrace];
    rewrite gt_num; [reflexivity|].
  destruct (Z.ltb_spec 0 z); [|reflexivity].
  rewrite !sub64_num by lia.
  rewrite !ge_num, !Zleb_shift. reflexivity.
Qed.

Lemma addBarbs_0 res : addBarbs res 0 0 0 = res.
Proof. destruct res. unfold addBarbs. simpl. f_equal; lia. Qed.

Lemma phase50 (c : nat) : forall (r : Z) (fuel : nat) res tr,
  (0 <= r)%Z -> (50 * Z.of_nat c + r <= 2 ^ 53)%Z ->
  getBarbsLoopTrace (c + fuel) (num (50 * Z.of_nat c + r)) res tr =
  getBarbsLoopTrace fuel (num r) (addBarbs res c 0 0) (tr ++ repeat 50%Z c).
Proof.
  induction c as [|c IH]; intros r fuel res tr Hr Hmax.
  - simpl. rewrite addBarbs_0, app_nil_r. reflexivity.
  - rewrite getBarbsLoopTrace_num by exact Hmax.
    destruct (Z.ltb_spec 0 (50 * Z.of_nat (S c) + r)); [|lia].
    cbn [Nat.add].
    destruct (Z.leb_spec 50 (50 * Z.of_nat (S c) + r)); [|lia].
    replace (50 * Z.of_nat (S c) + r - 50)%Z with (50 * Z.of_nat c + r)%Z by lia.
    rewrite IH by lia. f_equal.
    + destruct res. unfold addBarbs, incr50. simpl. f_equal; lia.
    + rewrite <- app_assoc. reflexivity.
Qed.

Lemma phase10 (c : nat) : forall (r : Z) (fuel : nat) res tr,
  (0 <= r)%Z -> (10 * Z.of_nat c + r < 50)%Z ->
  getBarbsLoopTrace (c + fuel) (num (10 * Z.of_nat c + r)) res tr =
  getBarbsLoopTrace fuel (num r) (addBarbs res 0 c 0) (tr ++ repeat 10%Z c).
Proof.
  pose proof two53 as H53.
  induction c as [|c IH]; intros r fuel res tr Hr Hlt.
  - simpl. rewrite addBarbs_0, app_nil_r. reflexivity.
  - rewrite getBarbsLoopTrace_num by lia.
    destruct (Z.ltb_spec 0 (10 * Z.of_nat (S c) + r)); [|lia].
    cbn [Nat.add].
    destruct (Z.leb_spec 50 (10 * Z.of_nat (S c) + r)); [lia|].
    destruct (Z.leb_spec 10 (10 * Z.of_nat (S c) + r)); [|lia].
    replace (10 * Z.of_nat (S c) + r - 10)%Z with (10 * Z.of_nat c + r)%Z by lia.
    rewrite IH by lia. f_equal.
    + destruct res. unfold addBarbs, incr10. simpl. f_equal; lia.
    + rewrite <- app_assoc. reflexivity.
Qed.

Lemma phase5 (c : nat) : forall (r : Z) (fuel : nat) res tr,
  (0 <= r)%Z -> (5 * Z.of_nat c + r < 10)%Z ->
  getBarbsLoopTrace (c + fuel) (num (5 * Z.of_nat c + r)) res tr =
  getBarbsLoopTrace fuel (num r) (addBarbs res 0 0 c) (tr ++ repeat 5%Z c).
Proof.
  pose proof two53 as H53.
  induction c as [|c IH]; intros r fuel res tr Hr Hlt.
  - simpl. rewrite addBarbs_0, app_nil_r. reflexivity.
  - rewrite getBarbsLoopTrace_num by lia.
    destruct (Z.ltb_spec 0 (5 * Z.of_nat (S c) + r)); [|lia].
    cbn [Nat.add].
    destruct (Z.leb_spec 50 (5 * Z.of_nat (S c) + r)); [lia|].
    destruct (Z.leb_spec 10 (5 * Z.of_nat (S c) + r)); [lia|].
    destruct (Z.leb_spec 5 (5 * Z.of_nat (S c) + r)); [|lia].
    replace (5 * Z.of_nat (S c) + r - 5)%Z with (5 * Z.of_nat c + r)%Z by lia.
    rewrite IH by lia. f_equal.
    + destruct res. unfold addBarbs, incr5. simpl. f_equal; lia.
    + rewrite <- app_assoc. reflexivity.
Qed.

Lemma phaseEnd (r : Z) (fuel : nat) res tr :
  (r < 5)%Z ->
  getBarbsLoopTrace (S fuel) (num r) res tr = Returns (res, tr).
Proof.
  intros Hr. pose proof two53 as H53.
  rewrite getBarbsLoopTrace_num by lia.
  destruct (Z.ltb_spec 0 r); [|reflexivity].
  destruct (Z.leb_spec 50 r); [lia|].
  destruct (Z.leb_spec 10 r); [lia|].
  destruct (Z.leb_spec 5 r); [lia|]. reflexivity.
Qed.

Lemma greedy_bounds (K : Z) :
  (0 <= K)%Z ->
  let b := greedy K in
  (50 * Z.of_nat (barbs50 b) + 10 * Z.of_nat (barbs10 b)
     + 5 * Z.of_nat (barbs5 b) <= K
   < 50 * Z.of_nat (barbs50 b) + 10 * Z.of_nat (barbs10 b)
     + 5 * Z.of_nat (barbs5 b) + 5)%Z
  /\ (10 * Z.of_nat (barbs10 b) + 5 * Z.of_nat (barbs5 b) < 50)%Z
  /\ (5 * Z.of_nat (barbs5 b) < 10)%Z.
Proof.
  intros HK. unfold greedy. cbn [barbs50 barbs10 barbs5].
  set (c50 := (K / 50)%Z).
  set (c10 := ((K - 50 * c50) / 10)%Z).
  set (c5 := ((K - 50 * c50 - 10 * c10) / 5)%Z).
  assert (H50 : (50 * c50 <= K < 50 * c50 + 50)%Z).
  { unfold c50. pose proof (Z.mul_div_le K 50 ltac:(lia)).
    pose proof (Z.mul_succ_div_gt K 50 ltac:(lia)). lia. }
  assert (H10 : (10 * c10 <= K - 50 * c50 < 10 * c10 + 10)%Z).
  { unfold c10. pose proof (Z.mul_div_le (K - 50 * c50) 10 ltac:(lia)).
    pose proof (Z.mul_succ_div_gt (K - 50 * c50) 10 ltac:(lia)). lia. }
  assert (H5 : (5 * c5 <= K - 50 * c50 - 10 * c10 < 5 * c5 + 5)%Z).
  { unfold c5. pose proof (Z.mul_div_le (K - 50 * c50 - 10 * c10) 5 ltac:(lia)).
    pose proof (Z.mul_succ_div_gt (K - 50 * c50 - 10 * c10) 5 ltac:(lia)). lia. }
  assert (0 <= c50)%Z by (unfold c50; apply Z.div_pos; lia).
  assert (0 <= c10)%Z by (unfold c10; apply Z.div_pos; lia).
  assert (0 <= c5)%Z by (unfold c5; apply Z.div_pos; lia).
  rewrite !Z2Nat.id by assumption. lia.
Qed.

(** From any counts [res], the loop on [K <= 2 ^ 53] knots adds the greedy
    counts of [K], the 50s first, then the 10s, then the 5s. *)
Lemma getBarbsLoopTrace_from (K : Z) (fuel : nat) (res : Barbs) (tr : list Z) :
  (0 <= K <= 2 ^ 53)%Z ->
  getBarbsLoopTrace (stepsOf K + S fuel) (num K) res tr =
  Returns (addBarbs res (barbs50 (greedy K)) (barbs10 (greedy K))
             (barbs5 (greedy K)),
           tr ++ greedyTrace (greedy K)).
Proof.
  intros [HK Hmax]. destruct (greedy_bounds K HK) as (Hsum & H10 & H5).
  cbv zeta in Hsum. unfold stepsOf, greedyTrace.
  set (b := greedy K) in *.
  set (r := (K - (50 * Z.of_nat (barbs50 b) + 10 * Z.of_nat (barbs10 b)
                  + 5 * Z.of_nat (barbs5 b)))%Z).
  replace (num K) with
    (num (50 * Z.of_nat (barbs50 b)
          + (10 * Z.of_nat (barbs10 b) + (5 * Z.of_nat (barbs5 b) + r))))
    by (f_equal; unfold r; lia).
  rewrite <- !Nat.add_assoc.
  rewrite phase50 by (unfold r; lia).
  rewrite phase10 by (unfold r; lia).
  rewrite phase5 by (unfold r; lia).
  rewrite phaseEnd by (unfold r; lia).
  f_equal. f_equal.
  - clearbody b. destruct b, res. unfold addBarbs. simpl. f_equal; lia.
  - rewrite <- !app_assoc. reflexivity.
Qed.

Lemma getBarbsLoopTrace_greedy (K : Z) (fuel : nat) :
  (0 <= K <= 2 ^ 53)%Z ->
  getBarbsLoopTrace (stepsOf K + S fuel) (num K)
    {| barbs50 := 0; barbs10 := 0; barbs5 := 0 |} [] =
  Returns (greedy K, greedyTrace (greedy K)).
Proof.
  intros HK. rewrite (getBarbsLoopTrace_from K fuel _ _ HK).
  destruct (greedy K). reflexivity.
Qed.

Lemma getBarbsLoop_erase (fuel : nat) : forall k res tr,
  getBarbsLoop fuel k res =
  match getBarbsLoopTrace fuel k res tr with
  | Returns (r, _) => Returns r
  | Throws e => Throws e
  | Diverges => Diverges
  end.
Proof.
  induction fuel as [|fuel IH]; intros k res tr; cbn [getBarbsLoop getBarbsLoopTrace].
  - destruct (k >? num 0)%num; reflexivity.
  - destruct (k >? num 0)%num; [|reflexivity].
    repeat (match goal with |- context [if ?c then _ else _] => destruct c end;
            [apply IH|]).
    reflexivity.
Qed.

Lemma getBarbsLoop_fuel_mono (fuel : nat) : forall fuel' k res r,
  fuel <= fuel' ->
  getBarbsLoop fuel k res = Returns r ->
  getBarbsLoop fuel' k res = Returns r.
Proof.
  induction fuel as [|fuel IH]; intros fuel' k res r Hle;
    cbn [getBarbsLoop].
  - destruct fuel'; cbn [getBarbsLoop]; destruct (k >? num 0)%num;
      congruence.
  - destruct fuel' as [|fuel']; [lia|]. cbn [getBarbsLoop].
    destruct (k >? num 0)%num; [|congruence].
    repeat (match goal with |- context [if ?c then _ else _] => destruct c end;
            [apply IH; lia|]).
    congruence.
Qed.

Lemma stepsOf_le (K : Z) : (0 <= K)%Z -> stepsOf K <= Z.to_nat (K / 5).
Proof.
  intros HK. destruct (greedy_bounds K HK) as (Hsum & _ & _).
  cbv zeta in Hsum. unfold stepsOf.
  apply Nat2Z.inj_le. rewrite Z2Nat.id by (apply Z.div_pos; lia).
  apply Z.div_le_lower_bound; lia.
Qed.

Lemma getBarbsLoop_from (K : Z) (fuel : nat) (res : Barbs) :
  (0 <= K <= 2 ^ 53)%Z -> Z.to_nat (K / 5) < fuel ->
  getBarbsLoop fuel (num K) res =
  Returns (addBarbs res (barbs50 (greedy K)) (barbs10 (greedy K))
             (barbs5 (greedy K))).
Proof.
  intros HK Hfuel.
  apply (getBarbsLoop_fuel_mono (stepsOf K + 1)).
  { pose proof (stepsOf_le K ltac:(lia)). lia. }
  rewrite (getBarbsLoop_erase _ _ _ []).
  rewrite (getBarbsLoopTrace_from K 0 res [] HK). reflexivity.
Qed.

Lemma getBarbsLoop_greedy (K : Z) (fuel : nat) :
  (0 <= K <= 2 ^ 53)%Z -> Z.to_nat (K / 5) < fuel ->
  getBarbsLoop fuel (num K) {| barbs50 := 0; barbs10 := 0; barbs5 := 0 |} =
  Returns (greedy K).
Proof.
  intros HK Hfuel. rewrite (getBarbsLoop_from K fuel _ HK Hfuel).
  destruct (greedy K). reflexivity.
Qed.

Lemma getBarbs_num (this : D3WindBarb) (K : Z) (fuel : nat) :
  knotsOf this = num K -> (K <= 2 ^ 53)%Z -> Z.to_nat (K / 5) < fuel ->
  getBarbs fuel this =
  Returns (if (K <? 5)%Z then None else Some (greedy K)).
Proof.
  intros HK Hmax Hfuel. unfold getBarbs. rewrite HK, lt_num.
  destruct (Z.ltb_spec K 5); [reflexivity|].
  rewrite getBarbsLoop_greedy by (assumption || lia). reflexivity.
Qed.

Lemma getBarbsLoop_Infinity (fuel : nat) : forall res,
  getBarbsLoop fuel (Infinity false) res = Diverges.
Proof.
  induction fuel as [|fuel IH]; intros res; [reflexivity|].
  cbn. apply IH.
Qed.

(** At [2 ^ 60] the subtraction of 50 rounds back to [2 ^ 60]. *)
Lemma getBarbsLoop_stalls (fuel : nat) : forall res,
  getBarbsLoop fuel (num (2 ^ 60)) res = Diverges.
Proof.
  assert (E : Num.sub64 (num (2 ^ 60)) (num 50) = num (2 ^ 60))
    by (vm_compute; reflexivity).
  induction fuel as [|fuel IH]; intros res; [reflexivity|].
  cbn [getBarbsLoop]. rewrite E, gt_num, ge_num.
  change (0 <? 2 ^ 60)%Z with true. change (0 <=? 2 ^ 60)%Z with true.
  apply IH.
Qed.

Lemma knotsOf_cases (this : D3WindBarb) :
  knotsOf this = NaN \/ (exists s, knotsOf this = Infinity s)
  \/ exists K, knotsOf this = num K.
Proof.
  unfold knotsOf.
  destruct (Num.mul64 (speed this) (conversionFactor (fullOptions this))); eauto.
Qed.

Lemma getBarbs_returns (this : D3WindBarb) (fuel : nat) :
  enoughFuel this fuel -> exists b, getBarbs fuel this = Returns b.
Proof.
  unfold enoughFuel.
  destruct (knotsOf_cases this) as [H | [[s H] | [K H]]]; rewrite H.
  - intros _. exists (Some {| barbs50 := 0; barbs10 := 0; barbs5 := 0 |}).
    unfold getBarbs. rewrite H. destruct fuel; reflexivity.
  - intros ->. exists None. unfold getBarbs. rewrite H. reflexivity.
  - unfold num, Num.of_Z. rewrite Qfloor_Z. intros [Hmax Hfuel].
    eexists. apply (getBarbs_num this K fuel H Hmax Hfuel).
Qed.

(** [enoughFuel] on a concrete instance. *)
Ltac enough_fuel := vm_compute; split; [discriminate|lia].

(** Above [2 ^ 53] the loop takes 50s, by subtractions that round, until
    it is down to [2 ^ 53] or stops moving; what it returns has the shape
    of a greedy count all the same. *)
Lemma getBarbsLoop_shape (fuel : nat) : forall (z : Z) (res r : Barbs),
  getBarbsLoop fuel (num z) res = Returns r ->
  barbs10 r <= barbs10 res + 4
  /\ barbs5 r <= barbs5 res + 1
  /\ ((5 <= z)%Z ->
      barbs50 res + barbs10 res + barbs5 res
      < barbs50 r + barbs10 r + barbs5 r).
Proof.
  pose proof two53 as H53.
  induction fuel as [|fuel IH]; intros z res r Hr.
  - cbn [getBarbsLoop] in Hr. rewrite gt_num in Hr.
    destruct (Z.ltb_spec 0 z); [discriminate|].
    injection Hr as <-. repeat split; lia.
  - destruct (Z_le_gt_dec z (2 ^ 53)) as [Hsmall|Hbig].
    + destruct (Z_lt_le_dec z 0) as [Hneg|Hpos].
      * cbn [getBarbsLoop] in Hr. rewrite gt_num in Hr.
        destruct (Z.ltb_spec 0 z); [lia|].
        injection Hr as <-. repeat split; lia.
      * pose proof (getBarbsLoop_from z (S (Z.to_nat (z / 5))) res
                      ltac:(lia) ltac:(lia)) as Hexact.
        assert (E : r = addBarbs res (barbs50 (greedy z)) (barbs10 (greedy z))
                      (barbs5 (greedy z))).
        { destruct (Nat.le_ge_cases (S fuel) (S (Z.to_nat (z / 5)))) as [Hle|Hle].
          - apply (getBarbsLoop_fuel_mono _ _ _ _ _ Hle) in Hr. congruence.
          - apply (getBarbsLoop_fuel_mono _ _ _ _ _ Hle) in Hexact. congruence. }
        destruct (greedy_bounds z Hpos) as (Hsum & H10 & H5). cbv zeta in Hsum.
        subst r. cbn [addBarbs barbs50 barbs10 barbs5]. repeat split; lia.
    + cbn [getBarbsLoop] in Hr. rewrite gt_num in Hr.
      destruct (Z.ltb_spec 0 z); [|lia].
      assert (Hq : (2 ^ 52 <= inject_Z z - inject_Z 50)%Q).
      { assert (Ed : inject_Z z - inject_Z 50 == inject_Z (z - 50))
          by (unfold Z.sub; rewrite inject_Z_plus, inject_Z_opp; reflexivity).
        rewrite Ed, (pow2_Z 52) by lia. rewrite <- Zle_Qle.
        assert (2 ^ 52 = 4503599627370496)%Z by reflexivity. lia. }
      change (Num.sub64 (num z) (num 50))
        with (Num.round64 (inject_Z z - inject_Z 50)) in Hr.
      destruct (round64_large _ Hq) as [E|(z' & E & Hz')]; rewrite E in Hr.
      * cbn in Hr. rewrite getBarbsLoop_Infinity in Hr. discriminate.
      * rewrite ge_num in Hr.
        destruct (Z.leb_spec 0 z'); [|lia].
        destruct (IH z' (incr50 res) r Hr) as (B10 & B5 & Bsum).
        cbn [incr50 barbs50 barbs10 barbs5] in *.
        split; [exact B10|]. split; [exact B5|]. intros _.
        destruct (Z_le_gt_dec 5 z') as [H5|H5]; [specialize (Bsum H5); lia|].
        exfalso. assert (4503599627370496 <= z')%Z by exact Hz'. lia.
Qed.


Lemma getBarbsLoopTrace_fuel_mono (fuel : nat) : forall fuel' k res tr r,
  fuel <= fuel' ->
  getBarbsLoopTrace fuel k res tr = Returns r ->
  getBarbsLoopTrace fuel' k res tr = Returns r.
Proof.
  induction fuel as [|fuel IH]; intros fuel' k res tr r Hle;
    cbn [getBarbsLoopTrace].
  - destruct fuel'; cbn [getBarbsLoopTrace]; destruct (k >? num 0)%num;
      congruence.
  - destruct fuel' as [|fuel']; [lia|]. cbn [getBarbsLoopTrace].
    destruct (k >? num 0)%num; [|congruence].
    repeat (match goal with |- context [if ?c then _ else _] => destruct c end;
            [apply IH; lia|]).
    congruence.
Qed.




(** ** Rounding *)

Lemma roundHalfAway_comp (p q : Q) :
  (p == q)%Q -> Num.roundHalfAway p = Num.roundHalfAway q.
Proof.
  intros H. unfold Num.roundHalfAway, Num.isNegative.
  rewrite (Qfloor_comp (- p + (1 # 2)) (- q + (1 # 2))) by (now rewrite H).
  rewrite (Qfloor_comp (p + (1 # 2)) (q + (1 # 2))) by (now rewrite H).
  now rewrite H.
Qed.

Lemma roundHalfAway_within_half (q : Q) :
  (Qabs (inject_Z (Num.roundHalfAway q) - q) <= 1 # 2)%Q.
Proof.
  apply Qabs_Qle_condition. unfold Num.roundHalfAway.
  destruct (isNegative_spec q) as [[-> Hq] | [-> Hq]].
  - pose proof (Qfloor_le (- q + (1 # 2))%Q) as Hlo.
    pose proof (Qlt_floor (- q + (1 # 2))%Q) as Hhi.
    rewrite inject_Z_plus in Hhi. change (inject_Z 1) with 1%Q in Hhi.
    rewrite inject_Z_opp. split; lra.
  - pose proof (Qfloor_le (q + (1 # 2))%Q) as Hlo.
    pose proof (Qlt_floor (q + (1 # 2))%Q) as Hhi.
    rewrite inject_Z_plus in Hhi. change (inject_Z 1) with 1%Q in Hhi.
    split; lra.
Qed.

Lemma roundHalfAway_nearest (q : Q) (m : Z) :
  (Qabs (inject_Z (Num.roundHalfAway q) - q) <= Qabs (inject_Z m - q))%Q.
Proof.
  pose proof (roundHalfAway_within_half q) as Hn.
  set (n := Num.roundHalfAway q) in *.
  destruct (Z.eq_dec m n) as [->|Hne]; [apply Qle_refl|].
  apply Qle_trans with (1 # 2)%Q; [exact Hn|].
  apply Qabs_Qle_condition in Hn. destruct Hn as [Hlo Hhi].
  destruct (Z_lt_le_dec m n) as [Hlt|Hge].
  - assert (Hm : (inject_Z m <= inject_Z n + inject_Z (-1))%Q)
      by (rewrite <- inject_Z_plus, <- Zle_Qle; lia).
    change (inject_Z (-1)) with (-1 # 1)%Q in Hm.
    rewrite <- Qabs_opp. apply Qle_trans with (- (inject_Z m - q))%Q.
    + lra.
    + apply Qle_Qabs.
  - assert (Hm : (inject_Z n + inject_Z 1 <= inject_Z m)%Q)
      by (rewrite <- inject_Z_plus, <- Zle_Qle; lia).
    change (inject_Z 1) with 1%Q in Hm.
    apply Qle_trans with (inject_Z m - q)%Q.
    + lra.
    + apply Qle_Qabs.
Qed.

Lemma roundHalfAway_inject_Z (z : Z) : Num.roundHalfAway (inject_Z z) = z.
Proof.
  pose proof (roundHalfAway_within_half (inject_Z z)) as H.
  apply Qabs_Qle_condition in H. destruct H as [H1 H2].
  set (n := Num.roundHalfAway (inject_Z z)) in *.
  assert (Ha : (inject_Z (z - 1) < inject_Z n)%Q).
  { unfold Z.sub. rewrite inject_Z_plus.
    change (inject_Z (- (1))) with (- (1))%Q. lra. }
  assert (Hb : (inject_Z n < inject_Z (z + 1))%Q).
  { rewrite inject_Z_plus. change (inject_Z 1) with 1%Q. lra. }
  rewrite <- Zlt_Qlt in Ha, Hb. lia.
Qed.

Lemma roundHalfAway_unique (q : Q) (n : Z) :
  (Qabs (inject_Z n - q) < 1 # 2)%Q -> Num.roundHalfAway q = n.
Proof.
  intros Hn. apply Qabs_Qlt_condition in Hn. destruct Hn as [Hn1 Hn2].
  pose proof (roundHalfAway_within_half q) as Hm.
  apply Qabs_Qle_condition in Hm. destruct Hm as [Hm1 Hm2].
  set (m := Num.roundHalfAway q) in *.
  assert (Ha : (inject_Z (n - 1) < inject_Z m)%Q).
  { unfold Z.sub. rewrite inject_Z_plus.
    change (inject_Z (- (1))) with (- (1))%Q. lra. }
  assert (Hb : (inject_Z m < inject_Z (n + 1))%Q).
  { rewrite inject_Z_plus. change (inject_Z 1) with 1%Q. lra. }
  rewrite <- Zlt_Qlt in Ha, Hb. lia.
Qed.

(** Of two integers equally near, [toFixed] takes the one of larger
    magnitude. *)
Lemma roundHalfAway_tie (q : Q) (m : Z) :
  (Qabs (inject_Z m - q) <= Qabs (inject_Z (Num.roundHalfAway q) - q))%Q ->
  (Z.abs m <= Z.abs (Num.roundHalfAway q))%Z.
Proof.
  intros Hm. pose proof (roundHalfAway_within_half q) as Hn.
  assert (Hmq : (Qabs (inject_Z m - q) <= 1 # 2)%Q) by lra.
  clear Hm. apply Qabs_Qle_condition in Hmq. destruct Hmq as [Hm1 Hm2].
  revert Hn. unfold Num.roundHalfAway.
  destruct (isNegative_spec q) as [[-> Hq] | [-> Hq]]; intros Hn.
  - pose proof (Qfloor_le (- q + (1 # 2))%Q) as Hlo.
    pose proof (Qlt_floor (- q + (1 # 2))%Q) as Hhi.
    rewrite inject_Z_plus in Hhi. change (inject_Z 1) with 1%Q in Hhi.
    set (n := Qfloor (- q + (1 # 2))) in *.
    assert (H1 : (inject_Z (- n - 1) < inject_Z m)%Q).
    { unfold Z.sub. rewrite inject_Z_plus, !inject_Z_opp.
      change (inject_Z 1) with 1%Q. lra. }
    assert (H2 : (inject_Z m < inject_Z (- n + 2))%Q).
    { rewrite inject_Z_plus, inject_Z_opp. change (inject_Z 2) with 2%Q. lra. }
    assert (H3 : (inject_Z (-1) < inject_Z n)%Q).
    { change (inject_Z (-1)) with (- (1))%Q. lra. }
    assert (H4 : (inject_Z m < inject_Z 1)%Q).
    { change (inject_Z 1) with 1%Q. lra. }
    rewrite <- Zlt_Qlt in H1, H2, H3, H4. lia.
  - pose proof (Qfloor_le (q + (1 # 2))%Q) as Hlo.
    pose proof (Qlt_floor (q + (1 # 2))%Q) as Hhi.
    rewrite inject_Z_plus in Hhi. change (inject_Z 1) with 1%Q in Hhi.
    set (n := Qfloor (q + (1 # 2))) in *.
    assert (H1 : (inject_Z m < inject_Z (n + 1))%Q).
    { rewrite inject_Z_plus. change (inject_Z 1) with 1%Q. lra. }
    assert (H2 : (inject_Z (n - 2) < inject_Z m)%Q).
    { unfold Z.sub. rewrite inject_Z_plus. change (inject_Z (- (2))) with (- (2))%Q.
      lra. }
    assert (H3 : (inject_Z (-1) < inject_Z n)%Q).
    { change (inject_Z (-1)) with (- (1))%Q. lra. }
    assert (H4 : (inject_Z (-1) < inject_Z m)%Q).
    { change (inject_Z (-1)) with (- (1))%Q. lra. }
    rewrite <- Zlt_Qlt in H1, H2, H3, H4. lia.
Qed.

(** ** The constructor and [draw] on the world *)

Lemma createSvg_spec (fo : PrivateWindBarbOptions) (w : world) :
  createSvg fo w =
  (fresh (dom (nodes w)),
   {| nodes := <[fresh (dom (nodes w)) := svgElement fo]> (nodes w);
      querySelector := querySelector w;
      attached := attached w |}).
Proof.
  unfold createSvg, create, svgElement, updateNode. cbn [nodes querySelector attached].
  destruct (truthy (svgId fo)); cbn [nodes querySelector attached];
    rewrite !alter_insert_eq; reflexivity.
Qed.

Lemma constructor_spec (Math : MathObject) (speed angle : number)
    (opts : option PublicWindBarbOptions) (w : world) :
  constructor Math speed angle opts w =
  ({| speed := speed; angle := angle; options := opts;
      fullOptions := mergeOptions Math opts;
      svg := fresh (dom (nodes w)) |},
   {| nodes := <[fresh (dom (nodes w)) := svgElement (mergeOptions Math opts)]> (nodes w);
      querySelector := querySelector w;
      attached := attached w |}).
Proof. unfold constructor. rewrite createSvg_spec. reflexivity. Qed.


Lemma draw_spec (fuel : nat) (this : D3WindBarb) (container : option string)
    (w : world) (b : option Barbs) :
  getBarbs fuel this = Returns b ->
  selectorAccepted w container ->
  draw fuel this container w =
  Returns (svg this,
           attachStep this container
             (updateNode (svg this) (append (shapeOf this b)) w)).
Proof.
  intros Hb Hsel. unfold draw. rewrite Hb.
  assert (Hw : (match b with
                | Some barbs => drawBarbs this barbs w
                | None => drawCircle this w
                end) = updateNode (svg this) (append (shapeOf this b)) w)
    by (destruct b; reflexivity).
  rewrite Hw. unfold attachStep.
  destruct container as [selector|]; [|reflexivity].
  destruct (truthy selector); [|reflexivity].
  cbn in Hsel. cbn [querySelector updateNode].
  destruct (querySelector w selector); congruence.
Qed.

Lemma nodes_attachStep this container w :
  nodes (attachStep this container w) = nodes w.
Proof.
  unfold attachStep. destruct container as [s|]; [|reflexivity].
  destruct (truthy s); [|reflexivity].
  destruct (querySelector w s); reflexivity.
Qed.

(** ** Element trees *)

Lemma descendants_unfold (e : element) :
  descendants e = flat_map (λ c, c :: descendants c) (childNodes e).
Proof. destruct e. reflexivity. Qed.

Lemma childNodes_svgElement fo : childNodes (svgElement fo) = [].
Proof. unfold svgElement. destruct (truthy (svgId fo)); reflexivity. Qed.

Lemma tagName_svgElement fo : tagName (svgElement fo) = "svg".
Proof. unfold svgElement. destruct (truthy (svgId fo)); reflexivity. Qed.

Lemma childNodes_append c e : childNodes (append c e) = childNodes e ++ [c].
Proof. reflexivity. Qed.

Lemma descendants_leaf (e : element) : childNodes e = [] -> descendants e = [].
Proof. intros H. rewrite descendants_unfold, H. reflexivity. Qed.


(** After the constructor and one [draw], the node behind the returned
    reference is the svg element with one more child. *)
Lemma render_nodes (Math : MathObject) (speed angle : number)
    (opts : option PublicWindBarbOptions) (container : option string)
    (fuel : nat) (w : world) (b : option Barbs) :
  let this := (constructor Math speed angle opts w).1 in
  let w0 := (constructor Math speed angle opts w).2 in
  getBarbs fuel this = Returns b ->
  selectorAccepted w container ->
  exists w',
    draw fuel this container w0 = Returns (svg this, w')
    /\ nodes w' !! svg this =
       Some (append (shapeOf this b) (svgElement (fullOptions this))).
Proof.
  intros this w0 Hb Hsel. subst this w0.
  rewrite constructor_spec in *. cbn [fst snd] in *.
  eexists. split.
  - apply draw_spec; [exact Hb|].
    destruct container; [|exact I]. exact Hsel.
  - rewrite nodes_attachStep. cbn [svg fullOptions nodes updateNode].
    rewrite alter_insert_eq, lookup_insert_eq. reflexivity.
Qed.

(** ** The group of a windy render *)



Lemma childNodes_barbsContainer (this : D3WindBarb) (barbs : Barbs) :
  childNodes (barbsContainer this barbs)
  = rootLine this :: segmentGroups this barbs.
Proof.
  unfold barbsContainer, segmentGroups, drawTriangles, drawFullBars, drawHalfBars.
  cbn [attr childNodes].
  destruct (decide (barbs50 barbs ≠ 0)), (decide (barbs10 barbs ≠ 0)),
    (decide (barbs5 barbs ≠ 0)); reflexivity.
Qed.

Lemma tagName_barbsContainer (this : D3WindBarb) (barbs : Barbs) :
  tagName (barbsContainer this barbs) = "g".
Proof.
  unfold barbsContainer, drawTriangles, drawFullBars, drawHalfBars.
  cbn [attr tagName].
  destruct (decide (barbs50 barbs ≠ 0)), (decide (barbs10 barbs ≠ 0)),
    (decide (barbs5 barbs ≠ 0)); reflexivity.
Qed.



Lemma rootLine_ends (this : D3WindBarb) :
  tagName (rootLine this) = "line"
  /\ attributes (rootLine this) !! "x1" = Some (AttrNumber (num 0))
  /\ attributes (rootLine this) !! "y1"
     = Some (AttrNumber (Size.height (size (fullOptions this))))
  /\ attributes (rootLine this) !! "x2"
     = Some (AttrNumber (Size.width (size (fullOptions this))))
  /\ attributes (rootLine this) !! "y2"
     = Some (AttrNumber (Size.height (size (fullOptions this)))).
Proof.
  unfold rootLine. destruct (rootBarClassName (fullOptions this));
    repeat split; reflexivity.
Qed.

(** ** Outcomes of [getBarbs], [draw] and the render *)

Lemma roundHalfAway_negative (q : Q) : (q < 0)%Q -> (Num.roundHalfAway q <= 0)%Z.
Proof.
  intros Hq. unfold Num.roundHalfAway.
  destruct (isNegative_spec q) as [[-> _] | [_ H0]]; [|lra].
  assert (0 <= Qfloor (- q + (1 # 2)))%Z; [|lia].
  rewrite <- (Qfloor_Z 0). apply Qfloor_resp_le. change (inject_Z 0) with 0%Q. lra.
Qed.

Lemma roundHalfAway_nonpos (q : Q) : (q <= 0)%Q -> (Num.roundHalfAway q <= 0)%Z.
Proof.
  intros Hq. destruct (Qlt_le_dec q 0) as [Hlt|Hge].
  - apply roundHalfAway_negative, Hlt.
  - rewrite (roundHalfAway_comp q 0) by lra. discriminate.
Qed.

Lemma getBarbs_fuel_mono (this : D3WindBarb) (fuel fuel' : nat) b :
  fuel <= fuel' ->
  getBarbs fuel this = Returns b -> getBarbs fuel' this = Returns b.
Proof.
  intros Hle. unfold getBarbs.
  destruct (knotsOf this <? num 5)%num; [trivial|].
  destruct (getBarbsLoop fuel (knotsOf this) _) as [r| |] eqn:E; try discriminate.
  rewrite (getBarbsLoop_fuel_mono fuel fuel' _ _ r Hle E). trivial.
Qed.

Lemma getBarbs_deterministic (this : D3WindBarb) (fuel fuel' : nat) b b' :
  getBarbs fuel this = Returns b -> getBarbs fuel' this = Returns b' -> b = b'.
Proof.
  intros H H'. destruct (Nat.le_ge_cases fuel fuel') as [Hle|Hle].
  - apply (getBarbs_fuel_mono this fuel fuel' b Hle) in H. congruence.
  - apply (getBarbs_fuel_mono this fuel' fuel b' Hle) in H'. congruence.
Qed.

Lemma getBarbs_ext (this that : D3WindBarb) (fuel : nat) :
  knotsOf this = knotsOf that -> getBarbs fuel this = getBarbs fuel that.
Proof. intros H. unfold getBarbs. rewrite H. reflexivity. Qed.

Lemma getBarbs_Infinity (this : D3WindBarb) (fuel : nat) :
  knotsOf this = Infinity false -> getBarbs fuel this = Diverges.
Proof.
  intros H. unfold getBarbs. rewrite H. cbn [Num.lt].
  rewrite getBarbsLoop_Infinity. reflexivity.
Qed.

Lemma getBarbs_NaN (this : D3WindBarb) (fuel : nat) :
  knotsOf this = NaN ->
  getBarbs fuel this
  = Returns (Some {| barbs50 := 0; barbs10 := 0; barbs5 := 0 |}).
Proof. intros H. unfold getBarbs. rewrite H. destruct fuel; reflexivity. Qed.

Lemma draw_returns_inv (fuel : nat) (this : D3WindBarb)
    (container : option string) (w w' : world) (r : nat) :
  draw fuel this container w = Returns (r, w') ->
  exists b,
    getBarbs fuel this = Returns b
    /\ r = svg this
    /\ nodes w' = alter (append (shapeOf this b)) (svg this) (nodes w).
Proof.
  unfold draw. destruct (getBarbs fuel this) as [b| |]; try discriminate.
  intros H. exists b. split; [reflexivity|].
  assert (Hw : (match b with
                | Some barbs => drawBarbs this barbs w
                | None => drawCircle this w
                end) = updateNode (svg this) (append (shapeOf this b)) w)
    by (destruct b; reflexivity).
  rewrite Hw in H. clear Hw.
  destruct container as [selector|].
  - destruct (truthy selector).
    + destruct (querySelector _ selector); inversion H; subst; split; reflexivity.
    + inversion H; subst; split; reflexivity.
  - inversion H; subst; split; reflexivity.
Qed.

Lemma draw_never_throws (fuel : nat) (this : D3WindBarb)
    (container : option string) (w : world) (e : exception) :
  selectorAccepted w container ->
  draw fuel this container w <> Throws e.
Proof.
  intros Hsel. unfold draw. destruct (getBarbs fuel this) as [b| |] eqn:E.
  - destruct container as [selector|]; [|discriminate].
    destruct (truthy selector); [|discriminate].
    cbn in Hsel.
    replace (querySelector
               match b with
               | Some barbs => drawBarbs this barbs w
               | None => drawCircle this w
               end selector) with (querySelector w selector)
      by (destruct b; reflexivity).
    destruct (querySelector w selector); congruence.
  - unfold getBarbs in E. destruct (knotsOf this <? num 5)%num; [discriminate|].
    destruct (getBarbsLoop fuel (knotsOf this) _) eqn:E'; try discriminate.
    exfalso. clear E.
    revert E'. generalize (knotsOf this).
    generalize {| barbs50 := 0; barbs10 := 0; barbs5 := 0 |}.
    induction fuel as [|fuel IH]; intros res k; cbn [getBarbsLoop];
      destruct (k >? num 0)%num; try discriminate.
    repeat (match goal with |- context [if ?c then _ else _] => destruct c end;
            [apply IH|]).
    discriminate.
  - discriminate.
Qed.

Lemma shapeOf_ext (this that : D3WindBarb) (b : option Barbs) :
  fullOptions this = fullOptions that -> angle this = angle that ->
  shapeOf this b = shapeOf that b.
Proof.
  destruct this as [s1 a1 o1 f1 r1], that as [s2 a2 o2 f2 r2].
  cbn [fullOptions angle]. intros -> ->.
  destruct b as [barbs|]; reflexivity.
Qed.

Lemma render_children (Math : MathObject) (speed angle : number)
    (opts : option PublicWindBarbOptions) (container : option string)
    (fuel : nat) (w : world) (b : option Barbs) :
  let this := (constructor Math speed angle opts w).1 in
  getBarbs fuel this = Returns b ->
  selectorAccepted w container ->
  rendersChildren Math speed angle opts container fuel w [shapeOf this b].
Proof.
  intros this Hb Hsel.
  destruct (render_nodes Math speed angle opts container fuel w b Hb Hsel)
    as (w' & Hdraw & Hnode).
  exists (svg this), w', (append (shapeOf this b) (svgElement (fullOptions this))).
  split; [|split; [exact Hnode|split]].
  - unfold render. subst this.
    destruct (constructor Math speed angle opts w) as [t w0]. exact Hdraw.
  - apply tagName_svgElement.
  - rewrite childNodes_append, childNodes_svgElement. reflexivity.
Qed.

Lemma render_diverges (Math : MathObject) (speed angle : number)
    (opts : option PublicWindBarbOptions) (container : option string)
    (fuel : nat) (w : world) :
  knotsOf (constructor Math speed angle opts w).1 = Infinity false ->
  render Math speed angle opts container fuel w = Diverges.
Proof.
  intros H. unfold render.
  destruct (constructor Math speed angle opts w) as [t w0]. cbn [fst] in H.
  unfold draw. rewrite (getBarbs_Infinity t fuel H). reflexivity.
Qed.

Lemma knotsOf_constructor (Math : MathObject) (speed angle : number)
    (opts : option PublicWindBarbOptions) (w : world) :
  knotsOf (constructor Math speed angle opts w).1
  = Num.toFixed
      (Num.mul64 speed (default (num 1) (opts ≫= pConversionFactor))).
Proof. rewrite constructor_spec. reflexivity. Qed.

Lemma isNegative_positive (f : Q) : (0 < f)%Q -> Num.isNegative f = false.
Proof.
  intros H. destruct (isNegative_spec f) as [[_ Hn] | [-> _]]; [lra|reflexivity].
Qed.

Lemma isZero_positive (f : Q) : (0 < f)%Q -> Num.isZero f = false.
Proof.
  intros H. unfold Num.isZero. destruct (Qeq_bool f 0) eqn:E; [|reflexivity].
  apply Qeq_bool_iff in E. lra.
Qed.

Lemma svgElement_size (fo : PrivateWindBarbOptions) :
  attributes (svgElement fo) !! "width"
  = Some (AttrNumber (Size.width (size fo)))
  /\ attributes (svgElement fo) !! "height"
     = Some (AttrNumber (Size.height (size fo))).
Proof.
  unfold svgElement. destruct (truthy (svgId fo)); split; reflexivity.
Qed.

Lemma render_returns_inv (Math : MathObject) (speed angle : number)
    (opts : option PublicWindBarbOptions) (container : option string)
    (fuel : nat) (w w' : world) (r : nat) :
  render Math speed angle opts container fuel w = Returns (r, w') ->
  let this := (constructor Math speed angle opts w).1 in
  exists b,
    getBarbs fuel this = Returns b
    /\ nodes w' !! r
       = Some (append (shapeOf this b) (svgElement (mergeOptions Math opts))).
Proof.
  unfold render. rewrite constructor_spec. cbn [fst].
  intros H. apply draw_returns_inv in H. destruct H as (b & Hb & -> & Hn).
  exists b. split; [exact Hb|].
  rewrite Hn. cbn [svg nodes]. rewrite alter_insert_eq, lookup_insert_eq.
  reflexivity.
Qed.

(** ** The speeds that are not finite

    What the code does on [NaN] and on [+Infinity], which no claim covers:
    [NaN] fails both [knots < 5] and [k > 0], so the glyph is the shaft
    with no segment; [+Infinity] passes [k - 50 >= 0] for ever. *)

Remark nan_speed_draws_bare_shaft (Math : MathObject) (angle : number)
    (opts : option PublicWindBarbOptions) (container : option string)
    (fuel : nat) (w : world) (f : Q) :
  default (num 1) (opts ≫= pConversionFactor) = Fin f ->
  selectorAccepted w container ->
  let this := (constructor Math NaN angle opts w).1 in
  let none := {| barbs50 := 0; barbs10 := 0; barbs5 := 0 |} in
  getBarbs fuel this = Returns (Some none)
  /\ childNodes (barbsContainer this none) = [rootLine this]
  /\ rendersChildren Math NaN angle opts container fuel w
       [barbsContainer this none].
Proof.
  intros Hf Hsel this none.
  assert (Hget : getBarbs fuel this = Returns (Some none)).
  { apply getBarbs_NaN. subst this. rewrite knotsOf_constructor. reflexivity. }
  split; [exact Hget|]. split.
  - rewrite childNodes_barbsContainer. reflexivity.
  - exact (render_children Math NaN angle opts container fuel w (Some none)
             Hget Hsel).
Qed.

Remark positive_infinity_never_returns (Math : MathObject) (angle : number)
    (opts : option PublicWindBarbOptions) (container : option string)
    (fuel : nat) (w : world) (f : Q) :
  default (num 1) (opts ≫= pConversionFactor) = Fin f -> (0 < f)%Q ->
  render Math (Infinity false) angle opts container fuel w = Diverges.
Proof.
  intros Hf Hpos. apply render_diverges.
  rewrite knotsOf_constructor, Hf. cbn [Num.mul64 Num.mul Num.toFixed].
  rewrite isZero_positive, isNegative_positive by assumption.
  reflexivity.
Qed.

(** ** The tests of the repository, run on the embedding *)

Example test_without_conversion :
  let svg :=
    returnedSvg (render MathRational (num 85) (num 90) None None 18
                   emptyDocument) in
  length ∘ getElementsByClassName "wind-barb-triangle" <$> svg = Some 1
  /\ length ∘ getElementsByClassName "wind-barb-bar-full" <$> svg = Some 3
  /\ length ∘ getElementsByClassName "wind-barb-bar-half" <$> svg = Some 1.
Proof. vm_compute. repeat split; reflexivity. Qed.

Example test_from_meters_per_second :
  let svg :=
    returnedSvg (render MathRational (num 40) (num 90)
                   (Some (optionsWithFactor ConversionFactors.MpsToKnot))
                   None 16 emptyDocument) in
  length ∘ getElementsByClassName "wind-barb-triangle" <$> svg = Some 1
  /\ length ∘ getElementsByClassName "wind-barb-bar-full" <$> svg = Some 2
  /\ length ∘ getElementsByClassName "wind-barb-bar-half" <$> svg = Some 1.
Proof. vm_compute. repeat split; reflexivity. Qed.

Example test_only_a_circle :
  let svg :=
    returnedSvg (render MathRational (num 0) (num 90)
                   (Some (optionsWithFactor ConversionFactors.None))
                   None 0 emptyDocument) in
  length ∘ getElementsByClassName "wind-barb-circle" <$> svg = Some 1.
Proof. vm_compute. reflexivity. Qed.

Example test_append_into_container :
  let result :=
    render MathRational (num 40) (num 0) (Some optionsWithSvgId)
      (Some "#container") 9 containerDocument in
  querySelector containerDocument "#container" = Match 0
  /\ attached (worldAfter result containerDocument) !! 0
     = Some [svg barbWithId]
  /\ returnedSvg result ≫= (λ root, attributes root !! "id")
     = Some (AttrString "wind-barb-root").
Proof. vm_compute. repeat split; reflexivity. Qed.

(** A selector that [querySelector] refuses makes [draw] throw. *)
Example malformed_selector_throws :
  draw 9 barbWithId (Some "#") documentWithBarb = Throws SyntaxError.
Proof. reflexivity. Qed.

(** ** The claims *)

(** C1 (amended). When the effective knots are an integer [K] with
    [5 <= K <= 2 ^ 53], [getBarbs] returns the largest-first greedy
    decomposition: [count50 = K / 50], [count10 = (K - 50 count50) / 10] and
    [count5 = (K - 50 count50 - 10 count10) / 5] (floor divisions); the loop
    subtracts all the 50s, then all the 10s, then all the 5s; the counted
    knots are at most [K] and miss it by less than 5; and 85 knots give one
    pennant, three full bars and one half bar. Up to [2 ^ 53] every
    subtraction of the loop is exact in binary64. *)
Theorem getBarbs_greedy_decomposition (this : D3WindBarb) (K : Z) (fuel : nat) :
  knotsOf this = num K -> (5 <= K)%Z -> (K <= 2 ^ 53)%Z ->
  Z.to_nat (K / 5) < fuel ->
  let count50 := (K / 50)%Z in
  let count10 := ((K - 50 * count50) / 10)%Z in
  let count5 := ((K - 50 * count50 - 10 * count10) / 5)%Z in
  let counts :=
    {| barbs50 := Z.to_nat count50;
       barbs10 := Z.to_nat count10;
       barbs5 := Z.to_nat count5 |} in
  (0 <= count50 /\ 0 <= count10 /\ 0 <= count5)%Z
  /\ getBarbs fuel this = Returns (Some counts)
  /\ getBarbsLoopTrace fuel (knotsOf this)
       {| barbs50 := 0; barbs10 := 0; barbs5 := 0 |} []
     = Returns (counts,
                repeat 50%Z (Z.to_nat count50) ++ repeat 10%Z (Z.to_nat count10)
                  ++ repeat 5%Z (Z.to_nat count5))
  /\ (50 * count50 + 10 * count10 + 5 * count5 <= K
      < 50 * count50 + 10 * count10 + 5 * count5 + 5)%Z
  /\ (K = 85%Z ->
      getBarbs fuel this
      = Returns (Some {| barbs50 := 1; barbs10 := 3; barbs5 := 1 |})).
Proof.
  intros HK H5 Hmax Hfuel count50 count10 count5 counts.
  assert (H0 : (0 <= K)%Z) by lia.
  assert (Hget : getBarbs fuel this = Returns (Some counts)).
  { rewrite (getBarbs_num this K fuel HK Hmax Hfuel).
    destruct (Z.ltb_spec K 5); [lia|]. reflexivity. }
  assert (Hpos : (0 <= count50 /\ 0 <= count10 /\ 0 <= count5)%Z).
  { subst count50 count10 count5.
    pose proof (Z.mul_div_le K 50 ltac:(lia)).
    pose proof (Z.mul_div_le (K - 50 * (K / 50)) 10 ltac:(lia)).
    repeat split; apply Z.div_pos; lia. }
  split; [exact Hpos|]. split; [exact Hget|]. split; [|split].
  - rewrite HK.
    apply (getBarbsLoopTrace_fuel_mono (stepsOf K + 1)).
    { pose proof (stepsOf_le K H0). lia. }
    apply (getBarbsLoopTrace_greedy K 0 (conj H0 Hmax)).
  - destruct (greedy_bounds K H0) as (Hsum & _ & _). cbv zeta in Hsum.
    unfold greedy in Hsum. cbn [barbs50 barbs10 barbs5] in Hsum.
    fold count50 count10 count5 in Hsum.
    destruct Hpos as (? & ? & ?).
    rewrite !Z2Nat.id in Hsum by assumption. exact Hsum.
  - intros ->. exact Hget.
Qed.

Lemma getBarbs_85_knots :
  knotsOf barb85 = num 85
  /\ getBarbs 18 barb85
     = Returns (Some {| barbs50 := 1; barbs10 := 3; barbs5 := 1 |}).
Proof.
  split; [reflexivity|].
  exact (proj1 (proj2 (getBarbs_greedy_decomposition barb85 85 18
                         eq_refl ltac:(lia) ltac:(lia)
                         ltac:(vm_compute; lia)))).
Defined.

(** C1 fails as stated. [2 ^ 60] is an integer, and the knots of
    [new D3WindBarb(2 ** 60, 90)]; in binary64 [2 ** 60 - 50] is [2 ** 60]
    again, so the loop variable never changes and [getBarbs] never
    returns. *)
Lemma huge_speed_never_decomposes :
  knotsOf barbHuge = num (2 ^ 60)
  /\ Num.sub64 (num (2 ^ 60)) (num 50) = num (2 ^ 60)
  /\ (forall fuel : nat, getBarbs fuel barbHuge = Diverges).
Proof.
  assert (Hk : knotsOf barbHuge = num (2 ^ 60)) by (vm_compute; reflexivity).
  split; [exact Hk|]. split; [vm_compute; reflexivity|].
  intros fuel. unfold getBarbs. rewrite Hk, lt_num.
  change (2 ^ 60 <? 5)%Z with false. cbv iota.
  rewrite getBarbsLoop_stalls. reflexivity.
Qed.



(** C3 (amended). A negative speed is not rejected. Under a finite
    positive conversion factor (1 by default) and a selector that
    [querySelector] accepts, every negative speed, [-Infinity] included,
    has effective knots below 5: [getBarbs] returns [undefined] and the
    render returns the svg with the calm circle in it. *)
Theorem negative_speed_is_not_rejected (Math : MathObject) (angle : number)
    (opts : option PublicWindBarbOptions) (container : option string)
    (w : world) (f : Q) :
  default (num 1) (opts ≫= pConversionFactor) = Fin f -> (0 < f)%Q ->
  selectorAccepted w container ->
  (forall (s : Q) (fuel : nat), (s < 0)%Q ->
     let this := (constructor Math (Fin s) angle opts w).1 in
     (knotsOf this <? num 5)%num = true
     /\ getBarbs fuel this = Returns None
     /\ rendersChildren Math (Fin s) angle opts container fuel w
          [circleElement this])
  /\ (forall fuel : nat,
        let this := (constructor Math (Infinity true) angle opts w).1 in
        (knotsOf this <? num 5)%num = true
        /\ getBarbs fuel this = Returns None
        /\ rendersChildren Math (Infinity true) angle opts container fuel w
             [circleElement this]).
Proof.
  intros Hf Hpos Hsel. split.
  - intros s fuel Hs this.
    assert (Hcalm : (knotsOf this <? num 5)%num = true).
    { subst this. rewrite knotsOf_constructor, Hf. cbn [Num.mul64].
      assert (Hneg : (s * f <= 0)%Q) by nra.
      destruct (round64_nonpos (s * f) Hneg) as [-> | (r & -> & Hr)];
        [reflexivity|].
      cbn [Num.toFixed]. fold (num (Num.roundHalfAway r)). rewrite lt_num.
      pose proof (roundHalfAway_nonpos r Hr) as Hn.
      destruct (Z.ltb_spec (Num.roundHalfAway r) 5); [reflexivity|lia]. }
    assert (Hget : getBarbs fuel this = Returns None)
      by (unfold getBarbs; rewrite Hcalm; reflexivity).
    split; [exact Hcalm|]. split; [exact Hget|].
    exact (render_children Math (Fin s) angle opts container fuel w None
             Hget Hsel).
  - intros fuel this.
    assert (Hcalm : (knotsOf this <? num 5)%num = true).
    { subst this. rewrite knotsOf_constructor, Hf.
      cbn [Num.mul64 Num.mul Num.toFixed].
      rewrite isZero_positive, isNegative_positive by assumption.
      reflexivity. }
    assert (Hget : getBarbs fuel this = Returns None)
      by (unfold getBarbs; rewrite Hcalm; reflexivity).
    split; [exact Hcalm|]. split; [exact Hget|].
    exact (render_children Math (Infinity true) angle opts container fuel w
             None Hget Hsel).
Qed.

Lemma negative_speed_outcome :
  (knotsOf barbNegativeSpeed <? num 5)%num = true
  /\ getBarbs 0 barbNegativeSpeed = Returns None
  /\ rendersChildren MathRational (num (-3)) (num 90) None None 0
       emptyDocument [circleElement barbNegativeSpeed].
Proof.
  pose proof (negative_speed_is_not_rejected MathRational (num 90) None None
                emptyDocument 1 eq_refl eq_refl I) as (Hneg & _).
  exact (Hneg (-3)%Q 0 eq_refl).
Defined.

(** C3 fails as stated: [new D3WindBarb(-3, 90).draw()] and
    [new D3WindBarb(NaN, 90).draw()] return the svg, the first with the
    calm circle in it and the second with the group of a bare shaft;
    nothing is thrown. *)
Lemma negative_speed_is_rendered :
  (map tagName ∘ childNodes)
    <$> returnedSvg (render MathRational (num (-3)) (num 90) None None 0
                       emptyDocument)
  = Some ["circle"]
  /\ (map (λ g, (tagName g, map tagName (childNodes g))) ∘ childNodes)
       <$> returnedSvg (render MathRational NaN (num 90) None None 0
                          emptyDocument)
     = Some [("g", ["line"])].
Proof. split; vm_compute; reflexivity. Qed.

(** C4 (amended). No configuration is rejected. The canvas width and
    height and the circle radius of the options are taken as they are
    given (80, 33 and 10 when they are omitted), whatever their sign; the
    svg is created with that width and height; and when the selector is
    one that [querySelector] accepts, [draw] throws nothing and, once the
    loop of [getBarbs] has fuel enough, returns the svg with its shape. *)
Theorem configuration_is_never_rejected (Math : MathObject)
    (speed angle : number) (opts : option PublicWindBarbOptions)
    (container : option string) (fuel : nat) (w : world) :
  let this := (constructor Math speed angle opts w).1 in
  let w0 := (constructor Math speed angle opts w).2 in
  let configured := fullOptions this in
  selectorAccepted w container ->
  Size.width (size configured)
    = default (num 80) ((opts ≫= pSize) ≫= PartialSize.width)
  /\ Size.height (size configured)
     = default (num 33) ((opts ≫= pSize) ≫= PartialSize.height)
  /\ Circle.radius (circle configured)
     = default (num 10) ((opts ≫= pCircle) ≫= PartialCircle.radius)
  /\ (exists root,
        nodes w0 !! svg this = Some root
        /\ attributes root !! "width"
           = Some (AttrNumber (Size.width (size configured)))
        /\ attributes root !! "height"
           = Some (AttrNumber (Size.height (size configured))))
  /\ (forall n e, draw n this container w0 <> Throws e)
  /\ (enoughFuel this fuel ->
      exists b,
        getBarbs fuel this = Returns b
        /\ rendersChildren Math speed angle opts container fuel w
             [shapeOf this b]).
Proof.
  intros this w0 configured Hsel.
  assert (Hthis : this = {| speed := speed; angle := angle; options := opts;
                            fullOptions := mergeOptions Math opts;
                            svg := fresh (dom (nodes w)) |})
    by (subst this; rewrite constructor_spec; reflexivity).
  assert (Hw0 : w0 = {| nodes := <[fresh (dom (nodes w))
                                   := svgElement (mergeOptions Math opts)]> (nodes w);
                        querySelector := querySelector w;
                        attached := attached w |})
    by (subst w0; rewrite constructor_spec; reflexivity).
  split; [|split; [|split; [|split; [|split]]]].
  - subst configured. rewrite Hthis.
    destruct opts as [o|]; [|reflexivity].
    cbn. destruct (pSize o) as [sz|]; [|reflexivity].
    cbn. destruct (PartialSize.width sz); reflexivity.
  - subst configured. rewrite Hthis.
    destruct opts as [o|]; [|reflexivity].
    cbn. destruct (pSize o) as [sz|]; [|reflexivity].
    cbn. destruct (PartialSize.height sz); reflexivity.
  - subst configured. rewrite Hthis.
    destruct opts as [o|]; [|reflexivity].
    cbn. destruct (pCircle o) as [c|]; [|reflexivity].
    cbn. destruct (PartialCircle.radius c); reflexivity.
  - exists (svgElement configured).
    destruct (svgElement_size configured) as [Hwd Hht].
    split; [|split; assumption].
    subst configured. rewrite Hw0, Hthis. cbn [nodes svg fullOptions].
    apply lookup_insert_eq.
  - intros n e. apply draw_never_throws.
    rewrite Hw0. destruct container; [exact Hsel|exact I].
  - intros Hfuel. destruct (getBarbs_returns this fuel Hfuel) as [b Hb].
    exists b. split; [exact Hb|].
    exact (render_children Math speed angle opts container fuel w b Hb Hsel).
Qed.

Lemma malformed_configuration_outcome :
  Size.width (size (fullOptions barbMalformed)) = num (-80)
  /\ Size.height (size (fullOptions barbMalformed)) = num 0
  /\ Circle.radius (circle (fullOptions barbMalformed)) = num (-10)
  /\ (forall n e,
        draw n barbMalformed None
          (constructor MathRational (num 0) (num 90) (Some malformedOptions)
             emptyDocument).2
        <> Throws e)
  /\ exists b,
       getBarbs 1 barbMalformed = Returns b
       /\ rendersChildren MathRational (num 0) (num 90)
            (Some malformedOptions) None 1 emptyDocument
            [shapeOf barbMalformed b].
Proof.
  pose proof (configuration_is_never_rejected MathRational (num 0) (num 90)
                (Some malformedOptions) None 1 emptyDocument I)
    as (Hw & Hh & Hr & _ & Hthrow & Hret).
  split; [exact Hw|]. split; [exact Hh|]. split; [exact Hr|].
  split; [exact Hthrow|].
  apply Hret. enough_fuel.
Defined.

(** C4 fails as stated:
    [new D3WindBarb(0, 90, { size: { width: -80, height: 0 },
                             circle: { radius: -10 } }).draw()]
    returns an svg of width -80 and height 0 that holds a circle of
    radius -10; nothing is thrown. *)
Lemma malformed_configuration_is_rendered :
  let result :=
    render MathRational (num 0) (num 90) (Some malformedOptions) None 0
      emptyDocument in
  returnedSvg result ≫= (λ root, attributes root !! "width")
    = Some (AttrNumber (num (-80)))
  /\ returnedSvg result ≫= (λ root, attributes root !! "height")
     = Some (AttrNumber (num 0))
  /\ (map tagName ∘ childNodes) <$> returnedSvg result = Some ["circle"]
  /\ (returnedSvg result ≫= (λ root, head (childNodes root)))
       ≫= (λ shape, attributes shape !! "r")
     = Some (AttrNumber (num (-10))).
Proof. vm_compute. repeat split; reflexivity. Qed.

(** C5 (amended). For a finite speed [s] and a finite conversion factor
    [f] (the one in the options, or 1 when the options give none), the
    effective knots are [toFixed] of the product as the code computes it,
    the binary64 product [p] of [s] and [f]. When [p] is finite the knots
    are the integer nearest to [p]: within one half of it, no other integer
    nearer, and of two integers equally near the one of larger magnitude.
    [p] is the real product [s * f] up to a relative error of [2 ^ -53]
    (and [2 ^ -1075] below the normal range). So the knots are the integer
    nearest to the real product whenever that product is farther than this
    error from the middle between two integers, and whenever it is an
    integer of at most [2 ^ 53] in magnitude, as for every whole speed with
    the factor 1. Speed 40 with the factor 1.944 gives 78 knots, hence one
    triangle, two full bars and one half bar. *)
Theorem knots_round_speed_times_factor (Math : MathObject) (s f : Q)
    (angle : number) (opts : option PublicWindBarbOptions) (w : world) :
  default (num 1) (opts ≫= pConversionFactor) = Fin f ->
  let this := (constructor Math (Fin s) angle opts w).1 in
  let product := Num.mul64 (Fin s) (Fin f) in
  let error := (Qabs (s * f) / 2 ^ 53 + 2 ^ (-1075))%Q in
  conversionFactor (fullOptions this) = Fin f
  /\ knotsOf this = Num.toFixed product
  /\ (forall p : Q, product = Fin p ->
        (Qabs (p - s * f) <= error)%Q
        /\ (exists n : Z,
              knotsOf this = num n
              /\ (Qabs (inject_Z n - p) <= 1 # 2)%Q
              /\ (forall m : Z,
                    (Qabs (inject_Z n - p) <= Qabs (inject_Z m - p))%Q)
              /\ (forall m : Z,
                    (Qabs (inject_Z m - p) <= Qabs (inject_Z n - p))%Q ->
                    (Z.abs m <= Z.abs n)%Z))
        /\ (forall n : Z,
              (Qabs (inject_Z n - s * f) + error < 1 # 2)%Q ->
              knotsOf this = num n))
  /\ (forall z : Z, (s * f == inject_Z z)%Q -> (Z.abs z <= 2 ^ 53)%Z ->
        knotsOf this = num z)
  /\ (let example :=
        (constructor Math (num 40) angle
           (Some (optionsWithFactor ConversionFactors.MpsToKnot)) w).1 in
      knotsOf example = num 78
      /\ forall fuel, 15 < fuel ->
           getBarbs fuel example
           = Returns (Some {| barbs50 := 1; barbs10 := 2; barbs5 := 1 |})).
Proof.
  intros Hf this product error.
  assert (Hfactor : conversionFactor (fullOptions this) = Fin f).
  { subst this. rewrite constructor_spec. exact Hf. }
  assert (Hknots : knotsOf this = Num.toFixed product).
  { subst this product. rewrite knotsOf_constructor, Hf. reflexivity. }
  split; [exact Hfactor|]. split; [exact Hknots|]. split; [|split].
  - intros p Hp.
    assert (Herr : (Qabs (p - s * f) <= error)%Q)
      by (apply round64_error; exact Hp).
    split; [exact Herr|]. split.
    + exists (Num.roundHalfAway p). rewrite Hknots, Hp. split; [reflexivity|].
      split; [apply roundHalfAway_within_half|].
      split; [apply roundHalfAway_nearest|apply roundHalfAway_tie].
    + intros n Hn. rewrite Hknots, Hp. cbn [Num.toFixed]. unfold num. f_equal.
      apply roundHalfAway_unique. clearbody error.
      assert (Hlt : (Qabs (inject_Z n - s * f) < (1 # 2) - error)%Q) by lra.
      apply Qabs_Qlt_condition in Hlt. destruct Hlt as [H1 H2].
      apply Qabs_Qle_condition in Herr. destruct Herr as [H3 H4].
      apply Qabs_Qlt_condition. split; lra.
  - intros z Hz Hmax. rewrite Hknots. subst product. cbn [Num.mul64].
    rewrite (round64_comp _ _ Hz), (round64_num z Hmax).
    cbn [num Num.of_Z Num.toFixed]. rewrite roundHalfAway_inject_Z.
    reflexivity.
  - intros example.
    assert (Hk : knotsOf example = num 78).
    { subst example. rewrite knotsOf_constructor. vm_compute. reflexivity. }
    split; [exact Hk|]. intros fuel Hfuel.
    rewrite (getBarbs_num example 78 fuel Hk)
      by (lia || (change (Z.to_nat (78 / 5)) with 15; lia)).
    reflexivity.
Qed.

Lemma knots_of_40_mps :
  conversionFactor (fullOptions barbMps)
    = Fin (2188749418902061 # 1125899906842624)
  /\ knotsOf barbMps
     = Num.toFixed (Num.mul64 (num 40) ConversionFactors.MpsToKnot)
  /\ knotsOf barbMps = num 78
  /\ forall fuel, 15 < fuel ->
       getBarbs fuel barbMps
       = Returns (Some {| barbs50 := 1; barbs10 := 2; barbs5 := 1 |}).
Proof.
  destruct (knots_round_speed_times_factor MathRational 40
              (2188749418902061 # 1125899906842624) (num 90)
              (Some (optionsWithFactor ConversionFactors.MpsToKnot))
              emptyDocument ltac:(vm_compute; reflexivity))
    as (Hf & Hk & _ & _ & H78 & Hget).
  split; [exact Hf|]. split; [exact Hk|]. split; [exact H78|exact Hget].
Defined.

(** C5 fails as stated. The factor [ConversionFactors.MpsToKnot] is the
    binary64 value of 1.944, a little less than 1.944. With it the speed
    187.5 has a real product below 364.5, whose nearest integer is 364;
    the code rounds the product to binary64 first, to 364.5, and [toFixed]
    makes 365 knots of it, more than one half away from the real product.
    Likewise [0.3 * 15] is 4.5 in binary64, so 5 knots, where the real
    product of the two values is below 4.5. *)
Lemma rounded_product_changes_the_knots :
  conversionFactor (fullOptions barbFast) = ConversionFactors.MpsToKnot
  /\ speed barbFast = Fin (375 # 2)
  /\ knotsOf barbFast = num 365
  /\ Num.roundHalfAway
       ((375 # 2) * finiteValue ConversionFactors.MpsToKnot) = 364%Z
  /\ (1 # 2 < inject_Z 365
              - (375 # 2) * finiteValue ConversionFactors.MpsToKnot)%Q
  /\ Num.mul64 (Fin (375 # 2)) ConversionFactors.MpsToKnot = Fin (729 # 2)
  /\ Num.toFixed (Num.mul64 (Num.round64 0.3) (num 15)) = num 5
  /\ Num.roundHalfAway (finiteValue (Num.round64 0.3) * 15) = 4%Z.
Proof. vm_compute. repeat split; reflexivity. Qed.



(** ** The layout of the segments along the shaft *)

Section Geometry.
Variable this : D3WindBarb.
Variables W T P B G : Q.
Hypothesis Hwidth : Size.width (size (fullOptions this)) = Fin W.
Hypothesis HtriangleWidth : Dims.triangleWidth (dims (fullOptions this)) = Fin T.
Hypothesis HtrianglePadding : Triangle.padding (triangle (fullOptions this)) = Fin P.
Hypothesis HbarWidth : Bar.width (bar (fullOptions this)) = Fin B.
Hypothesis HbarPadding : Bar.padding (bar (fullOptions this)) = Fin G.






End Geometry.



(** C8. Two renders with the same speed, angle and options, each on a
    new instance, in any two states of the document and of the nodes (the
    second may be the state that the first render left), with or without
    a container. Whenever both return, the two returned references lead
    to equal trees. And they do return: once the loop of [getBarbs] has
    fuel enough and the selectors are ones that [querySelector] accepts,
    each render returns a reference that was not in use, and behind both
    references is the same tree, the svg of [createSvg] holding the one
    shape of the knots. *)
Theorem render_twice_same_tree (Math : MathObject) (speed angle : number)
    (opts : option PublicWindBarbOptions) (container1 container2 : option string)
    (fuel1 fuel2 : nat) (w1 w2 : world) :
  let this := (constructor Math speed angle opts w1).1 in
  (forall (w1' w2' : world) (r1 r2 : nat),
      render Math speed angle opts container1 fuel1 w1 = Returns (r1, w1') ->
      render Math speed angle opts container2 fuel2 w2 = Returns (r2, w2') ->
      exists tree,
        nodes w1' !! r1 = Some tree /\ nodes w2' !! r2 = Some tree)
  /\ (enoughFuel this fuel1 -> enoughFuel this fuel2 ->
      selectorAccepted w1 container1 -> selectorAccepted w2 container2 ->
      exists b r1 w1' r2 w2' tree,
        getBarbs fuel1 this = Returns b
        /\ render Math speed angle opts container1 fuel1 w1 = Returns (r1, w1')
        /\ render Math speed angle opts container2 fuel2 w2 = Returns (r2, w2')
        /\ (r1 ∉ dom (nodes w1))
        /\ (r2 ∉ dom (nodes w2))
        /\ nodes w1' !! r1 = Some tree
        /\ nodes w2' !! r2 = Some tree
        /\ tree = append (shapeOf this b) (svgElement (mergeOptions Math opts))
        /\ tagName tree = "svg"
        /\ childNodes tree = [shapeOf this b]).
Proof.
  intros this.
  set (this2 := (constructor Math speed angle opts w2).1).
  assert (Hk : knotsOf this = knotsOf this2).
  { subst this this2. rewrite !knotsOf_constructor. reflexivity. }
  assert (Hshape : forall b, shapeOf this2 b = shapeOf this b).
  { intros b. apply shapeOf_ext; subst this this2;
      rewrite !constructor_spec; reflexivity. }
  assert (Hfo : fullOptions this = mergeOptions Math opts)
    by (subst this; rewrite constructor_spec; reflexivity).
  assert (Hfo2 : fullOptions this2 = mergeOptions Math opts)
    by (subst this2; rewrite constructor_spec; reflexivity).
  split.
  - intros w1' w2' r1 r2 H1 H2.
    apply render_returns_inv in H1. apply render_returns_inv in H2.
    cbv zeta in H1, H2. fold this in H1. fold this2 in H2.
    destruct H1 as (b1 & Hb1 & Hn1), H2 as (b2 & Hb2 & Hn2).
    rewrite <- (getBarbs_ext this this2 fuel2 Hk) in Hb2.
    assert (Hb : b1 = b2) by exact (getBarbs_deterministic this _ _ _ _ Hb1 Hb2).
    subst b2. eexists. split; [exact Hn1|].
    rewrite Hn2, Hshape. reflexivity.
  - intros Hfuel1 Hfuel2 Hsel1 Hsel2.
    destruct (getBarbs_returns this fuel1 Hfuel1) as [b Hb].
    destruct (getBarbs_returns this fuel2 Hfuel2) as [b2 Hb2].
    assert (b2 = b) as -> by exact (getBarbs_deterministic this _ _ _ _ Hb2 Hb).
    rewrite (getBarbs_ext this this2 fuel2 Hk) in Hb2.
    destruct (render_nodes Math speed angle opts container1 fuel1 w1 b Hb Hsel1)
      as (w1' & Hd1 & Hn1).
    destruct (render_nodes Math speed angle opts container2 fuel2 w2 b Hb2 Hsel2)
      as (w2' & Hd2 & Hn2).
    fold this in Hd1, Hn1. fold this2 in Hd2, Hn2.
    exists b, (svg this), w1', (svg this2), w2',
      (append (shapeOf this b) (svgElement (mergeOptions Math opts))).
    split; [exact Hb|]. split.
    { unfold render. subst this.
      destruct (constructor Math speed angle opts w1) as [t w0]. exact Hd1. }
    split.
    { unfold render. subst this2.
      destruct (constructor Math speed angle opts w2) as [t w0]. exact Hd2. }
    split; [subst this; rewrite constructor_spec; apply is_fresh|].
    split; [subst this2; rewrite constructor_spec; apply is_fresh|].
    split; [rewrite Hn1, Hfo; reflexivity|].
    split; [rewrite Hn2, Hfo2, Hshape; reflexivity|].
    split; [reflexivity|].
    split; [apply tagName_svgElement|].
    rewrite childNodes_append, childNodes_svgElement. reflexivity.
Qed.

Lemma render_10_twice :
  exists b tree,
    getBarbs 3 (constructor MathRational (num 10) (num 90) None emptyDocument).1
      = Returns b
    /\ nodes (worldAfter firstRender emptyDocument) !! 0 = Some tree
    /\ nodes (worldAfter secondRender (worldAfter firstRender emptyDocument)) !! 1
       = Some tree
    /\ childNodes tree
       = [shapeOf
            (constructor MathRational (num 10) (num 90) None emptyDocument).1 b].
Proof.
  destruct (proj2 (render_twice_same_tree MathRational (num 10) (num 90) None
                     None None 3 3 emptyDocument
                     (worldAfter firstRender emptyDocument))
              ltac:(enough_fuel) ltac:(enough_fuel) I I)
    as (b & r1 & w1' & r2 & w2' & tree & Hb & H1 & H2 & _ & _ & Hn1 & Hn2 & _
        & _ & Hc).
  exists b, tree. split; [exact Hb|].
  assert (E1 : firstRender = Returns (r1, w1')) by exact H1.
  assert (E2 : secondRender = Returns (r2, w2')) by exact H2.
  assert (Hr1 : r1 = 0).
  { assert (H : fst <$> returnedRef firstRender = Some 0)
      by (vm_compute; reflexivity).
    rewrite E1 in H. cbn in H. congruence. }
  assert (Hr2 : r2 = 1).
  { assert (H : fst <$> returnedRef secondRender = Some 1)
      by (vm_compute; reflexivity).
    rewrite E2 in H. cbn in H. congruence. }
  rewrite E2. cbn [worldAfter]. rewrite E1. cbn [worldAfter].
  subst r1 r2. split; [exact Hn1|]. split; [exact Hn2|exact Hc].
Defined.

(** C9 (amended). When the selector is one that [querySelector] accepts and
    finds no element for, [draw(selector)] behaves exactly as [draw()]
    does: it throws nothing, and once the loop of [getBarbs] has fuel
    enough it returns the svg in the state that [draw()] leaves, with
    nothing attached anywhere. When the selector is not empty and
    [querySelector] refuses it as malformed, [draw(selector)] is no silent
    no-op: once [getBarbs] has returned, it throws the [SyntaxError] of
    [querySelector]. *)
Theorem missing_container_is_no_op (fuel : nat) (this : D3WindBarb)
    (selector : string) (w : world) :
  (querySelector w selector = NoMatch ->
   (forall n e, draw n this (Some selector) w <> Throws e)
   /\ (forall n, draw n this (Some selector) w = draw n this None w)
   /\ (enoughFuel this fuel ->
       exists w',
         draw fuel this (Some selector) w = Returns (svg this, w')
         /\ draw fuel this None w = Returns (svg this, w')
         /\ attached w' = attached w
         /\ querySelector w' = querySelector w))
  /\ (querySelector w selector = InvalidSelector ->
      truthy selector = true ->
      enoughFuel this fuel ->
      draw fuel this (Some selector) w = Throws SyntaxError
      /\ exists w', draw fuel this None w = Returns (svg this, w')).
Proof.
  split.
  - intros Hq.
    assert (Hsame : forall n, draw n this (Some selector) w = draw n this None w).
    { intros n. unfold draw. destruct (getBarbs n this) as [b| |]; try reflexivity.
      destruct (truthy selector); [|reflexivity].
      replace (querySelector
                 match b with
                 | Some barbs => drawBarbs this barbs w
                 | None => drawCircle this w
                 end selector) with (querySelector w selector)
        by (destruct b; reflexivity).
      rewrite Hq. reflexivity. }
    split; [|split; [exact Hsame|]].
    + intros n e. apply draw_never_throws. cbn. rewrite Hq. discriminate.
    + intros Hfuel. destruct (getBarbs_returns this fuel Hfuel) as [b Hb].
      exists (updateNode (svg this) (append (shapeOf this b)) w).
      rewrite Hsame, (draw_spec fuel this None w b Hb I).
      repeat split; reflexivity.
  - intros Hq Ht Hfuel. destruct (getBarbs_returns this fuel Hfuel) as [b Hb].
    split.
    + unfold draw. rewrite Hb, Ht.
      replace (querySelector
                 match b with
                 | Some barbs => drawBarbs this barbs w
                 | None => drawCircle this w
                 end selector) with (querySelector w selector)
        by (destruct b; reflexivity).
      rewrite Hq. reflexivity.
    + eexists. apply (draw_spec fuel this None w b Hb I).
Qed.

Lemma missing_container_of_test_document :
  (forall n e, draw n barbWithId (Some "#missing") documentWithBarb <> Throws e)
  /\ exists w',
       draw 9 barbWithId (Some "#missing") documentWithBarb
       = Returns (svg barbWithId, w')
       /\ draw 9 barbWithId None documentWithBarb = Returns (svg barbWithId, w')
       /\ attached w' = attached documentWithBarb
       /\ querySelector w' = querySelector documentWithBarb.
Proof.
  pose proof (proj1 (missing_container_is_no_op 9 barbWithId "#missing"
                       documentWithBarb) eq_refl) as (Hthrow & _ & Hret).
  split; [exact Hthrow|]. apply Hret. enough_fuel.
Defined.

(** C9 fails as stated. In the document whose one element has the id
    [container], the selector [#] matches no element, and
    [new D3WindBarb(40, 0, ...).draw('#')] throws: [querySelector] refuses
    the selector, as it refuses [#1abc] for the id [1abc], and [draw] lets
    the [SyntaxError] through. *)
Lemma unmatched_selector_throws :
  (forall target : nat, querySelector documentWithBarb "#" <> Match target)
  /\ draw 9 barbWithId (Some "#") documentWithBarb = Throws SyntaxError.
Proof. split; [intros target; discriminate|reflexivity]. Qed.

(** C10. The constructor creates the svg root once, as a new node. Every
    [draw()] on the instance returns the reference of that node, creates no
    other root, leaves the other nodes and the document alone, and appends
    one more copy of the shape: the circle of [drawCircle] when the knots
    are below 5, the group of [drawBarbs], shaft first, otherwise. After
    the second [draw()] the svg holds the shape twice. *)
Theorem draw_twice_appends_twice (Math : MathObject) (speed angle : number)
    (opts : option PublicWindBarbOptions) (fuel : nat) (w : world) :
  let this := (constructor Math speed angle opts w).1 in
  let w0 := (constructor Math speed angle opts w).2 in
  enoughFuel this fuel ->
  (svg this ∉ dom (nodes w))
  /\ nodes w0 = <[svg this := svgElement (fullOptions this)]> (nodes w)
  /\ exists b w1 w2 root1 root2,
       getBarbs fuel this = Returns b
       /\ draw fuel this None w0 = Returns (svg this, w1)
       /\ draw fuel this None w1 = Returns (svg this, w2)
       /\ dom (nodes w1) = dom (nodes w0)
       /\ dom (nodes w2) = dom (nodes w0)
       /\ (forall r, r ≠ svg this -> nodes w2 !! r = nodes w !! r)
       /\ attached w2 = attached w
       /\ nodes w1 !! svg this = Some root1
       /\ childNodes root1 = [shapeOf this b]
       /\ nodes w2 !! svg this = Some root2
       /\ childNodes root2 = [shapeOf this b; shapeOf this b]
       /\ tagName root2 = "svg"
       /\ attributes root2 = attributes (svgElement (fullOptions this))
       /\ ((b = None
            /\ (knotsOf this <? num 5)%num = true
            /\ shapeOf this b = circleElement this
            /\ map tagName (childNodes root2) = ["circle"; "circle"])
           \/ (exists counts,
                 b = Some counts
                 /\ (knotsOf this <? num 5)%num = false
                 /\ shapeOf this b = barbsContainer this counts
                 /\ childNodes (barbsContainer this counts)
                    = rootLine this :: segmentGroups this counts
                 /\ map tagName (childNodes root2) = ["g"; "g"])).
Proof.
  intros this w0 Hfuel.
  assert (Hthis : this = {| speed := speed; angle := angle; options := opts;
                            fullOptions := mergeOptions Math opts;
                            svg := fresh (dom (nodes w)) |})
    by (subst this; rewrite constructor_spec; reflexivity).
  assert (Hw0 : w0 = {| nodes := <[fresh (dom (nodes w))
                                   := svgElement (mergeOptions Math opts)]> (nodes w);
                        querySelector := querySelector w;
                        attached := attached w |})
    by (subst w0; rewrite constructor_spec; reflexivity).
  assert (Hsvg : svg this = fresh (dom (nodes w))) by (rewrite Hthis; reflexivity).
  assert (Hfo : fullOptions this = mergeOptions Math opts)
    by (rewrite Hthis; reflexivity).
  split; [rewrite Hsvg; apply is_fresh|].
  split; [rewrite Hw0, Hsvg, Hfo; reflexivity|].
  destruct (getBarbs_returns this fuel Hfuel) as [b Hb].
  set (shape := shapeOf this b).
  set (w1 := updateNode (svg this) (append shape) w0).
  set (w2 := updateNode (svg this) (append shape) w1).
  assert (Hl0 : nodes w0 !! svg this = Some (svgElement (fullOptions this))).
  { rewrite Hw0, Hsvg, Hfo. cbn [nodes]. apply lookup_insert_eq. }
  assert (Hl1 : nodes w1 !! svg this
                = Some (append shape (svgElement (fullOptions this)))).
  { unfold w1. cbn [updateNode nodes]. rewrite lookup_alter_eq, Hl0. reflexivity. }
  assert (Hl2 : nodes w2 !! svg this
                = Some (append shape
                          (append shape (svgElement (fullOptions this))))).
  { unfold w2. cbn [updateNode nodes]. rewrite lookup_alter_eq, Hl1. reflexivity. }
  exists b, w1, w2, (append shape (svgElement (fullOptions this))),
    (append shape (append shape (svgElement (fullOptions this)))).
  split; [exact Hb|].
  split; [exact (draw_spec fuel this None w0 b Hb I)|].
  split; [exact (draw_spec fuel this None w1 b Hb I)|].
  split; [apply dom_alter_L|].
  split; [unfold w2, w1; cbn [updateNode nodes]; rewrite !dom_alter_L; reflexivity|].
  split.
  { intros r Hr. unfold w2, w1. cbn [updateNode nodes].
    rewrite !lookup_alter_ne by congruence.
    rewrite Hw0. cbn [nodes]. rewrite lookup_insert_ne; [reflexivity|].
    rewrite <- Hsvg. congruence. }
  split; [unfold w2, w1; cbn [updateNode attached]; rewrite Hw0; reflexivity|].
  split; [exact Hl1|].
  split; [rewrite childNodes_append, childNodes_svgElement; reflexivity|].
  split; [exact Hl2|].
  split; [rewrite !childNodes_append, childNodes_svgElement; reflexivity|].
  split; [apply tagName_svgElement|]. split; [reflexivity|].
  rewrite !childNodes_append, childNodes_svgElement. cbn [List.app map].
  unfold shape. unfold getBarbs in Hb.
  destruct (knotsOf this <? num 5)%num.
  - left. injection Hb as <-. repeat split; reflexivity.
  - right. destruct (getBarbsLoop fuel (knotsOf this) _) as [counts| |];
      try discriminate.
    injection Hb as <-. exists counts. cbn [shapeOf].
    rewrite tagName_barbsContainer.
    split; [reflexivity|]. split; [reflexivity|]. split; [reflexivity|].
    split; [apply childNodes_barbsContainer|reflexivity].
Qed.

Lemma draw_85_twice :
  (svg barb85 ∉ dom (nodes emptyDocument))
  /\ exists b w1 w2 root1 root2,
       getBarbs 18 barb85 = Returns b
       /\ draw 18 barb85 None
            (constructor MathRational (num 85) (num 90) None emptyDocument).2
          = Returns (svg barb85, w1)
       /\ draw 18 barb85 None w1 = Returns (svg barb85, w2)
       /\ nodes w1 !! svg barb85 = Some root1
       /\ childNodes root1 = [shapeOf barb85 b]
       /\ nodes w2 !! svg barb85 = Some root2
       /\ childNodes root2 = [shapeOf barb85 b; shapeOf barb85 b].
Proof.
  pose proof (draw_twice_appends_twice MathRational (num 85) (num 90) None
                18 emptyDocument ltac:(enough_fuel))
    as (Hfresh & _ & b & w1 & w2 & root1 & root2 & Hb & Hd1 & Hd2 & _ & _ & _
        & _ & Hl1 & Hc1 & Hl2 & Hc2 & _).
  split; [exact Hfresh|].
  exists b, w1, w2, root1, root2. repeat split; assumption.
Defined.

(** * Part III: further properties of the code *)

(** ** More on the decomposition *)

Lemma getBarbs_Some_inv (this : D3WindBarb) (fuel : nat) (b : Barbs) :
  getBarbs fuel this = Returns (Some b) ->
  (knotsOf this = NaN /\ b = {| barbs50 := 0; barbs10 := 0; barbs5 := 0 |})
  \/ (exists K, knotsOf this = num K /\ (5 <= K)%Z
                /\ getBarbsLoop fuel (num K)
                     {| barbs50 := 0; barbs10 := 0; barbs5 := 0 |}
                   = Returns b).
Proof.
  intros H. destruct (knotsOf_cases this) as [Hk | [[s Hk] | [K Hk]]].
  - left. split; [exact Hk|].
    rewrite (getBarbs_NaN this fuel Hk) in H. congruence.
  - exfalso. destruct s.
    + unfold getBarbs in H. rewrite Hk in H. discriminate.
    + rewrite (getBarbs_Infinity this fuel Hk) in H. discriminate.
  - right. exists K. split; [exact Hk|].
    unfold getBarbs in H. rewrite Hk, lt_num in H.
    destruct (Z.ltb_spec K 5) as [Hlt|Hge]; [discriminate|].
    split; [exact Hge|].
    destruct (getBarbsLoop fuel (num K) _) as [r| |]; congruence.
Qed.

(** X1. [getBarbs] returns [undefined] exactly when the knots are below 5.
    Counts that it returns never hold more than four full bars or more
    than one half bar, and they are all zero only when the knots are
    [NaN]: finite knots of 5 or more always give at least one segment. *)
Theorem getBarbs_result_shape (this : D3WindBarb) (fuel : nat) :
  (getBarbs fuel this = Returns None <-> (knotsOf this <? num 5)%num = true)
  /\ (forall b, getBarbs fuel this = Returns (Some b) ->
        barbs10 b <= 4
        /\ barbs5 b <= 1
        /\ (barbs50 b + barbs10 b + barbs5 b = 0 <-> knotsOf this = NaN)).
Proof.
  split.
  - unfold getBarbs. destruct (knotsOf this <? num 5)%num.
    + split; reflexivity.
    + split; [|discriminate].
      destruct (getBarbsLoop fuel (knotsOf this) _); discriminate.
  - intros b Hb.
    destruct (getBarbs_Some_inv this fuel b Hb)
      as [[Hk ->] | (K & Hk & HK & Hloop)].
    + cbn. split; [lia|]. split; [lia|]. split; [intros _; exact Hk|reflexivity].
    + destruct (getBarbsLoop_shape fuel K _ b Hloop) as (H10 & H5 & Hsum).
      specialize (Hsum HK). cbn [barbs50 barbs10 barbs5] in *.
      split; [lia|]. split; [lia|]. split.
      * intros H0. exfalso. lia.
      * intros HNaN. rewrite Hk in HNaN. discriminate.
Qed.

(** X2. The glyph stands for the knots rounded down to a multiple of 5:
    for integer knots [K] with [5 <= K <= 2 ^ 53], the range in which the
    loop is exact, the counts add up to [5 * (K / 5)], and all the speeds
    of one 5-knot bucket in that range get the same counts. *)
Theorem getBarbs_five_knot_buckets (this : D3WindBarb) (K : Z) (fuel : nat) :
  knotsOf this = num K -> (5 <= K)%Z -> (K <= 2 ^ 53)%Z ->
  Z.to_nat (K / 5) < fuel ->
  exists b,
    getBarbs fuel this = Returns (Some b)
    /\ (50 * Z.of_nat (barbs50 b) + 10 * Z.of_nat (barbs10 b)
        + 5 * Z.of_nat (barbs5 b) = 5 * (K / 5))%Z
    /\ forall (that : D3WindBarb) (K' : Z) (fuel' : nat),
         knotsOf that = num K' -> (K' / 5 = K / 5)%Z -> (K' <= 2 ^ 53)%Z ->
         Z.to_nat (K' / 5) < fuel' ->
         getBarbs fuel' that = Returns (Some b).
Proof.
  intros HK H5 Hmax Hfuel. exists (greedy K).
  assert (Hgreedy : forall A, (5 <= A)%Z -> greedy A = greedy (5 * (A / 5))).
  { intros A HA. unfold greedy.
    pose proof (Z.div_mod A 5 ltac:(lia)) as Hdm.
    pose proof (Z.mod_pos_bound A 5 ltac:(lia)) as Hr.
    set (q := (A / 5)%Z) in *. set (r := (A mod 5)%Z) in *.
    assert (Hq : (1 <= q)%Z) by lia.
    assert (E50 : (A / 50 = 5 * q / 50)%Z).
    { apply Z.div_unique with (r := (5 * q - 50 * (A / 50))%Z); [|lia].
      pose proof (Z.mul_div_le A 50 ltac:(lia)).
      pose proof (Z.mul_succ_div_gt A 50 ltac:(lia)). left. lia. }
    rewrite <- E50. set (c50 := (A / 50)%Z) in *.
    pose proof (Z.mul_div_le A 50 ltac:(lia)) as L50.
    pose proof (Z.mul_succ_div_gt A 50 ltac:(lia)) as U50. fold c50 in L50, U50.
    assert (E10 : ((A - 50 * c50) / 10 = (5 * q - 50 * c50) / 10)%Z).
    { apply Z.div_unique
        with (r := (5 * q - 50 * c50 - 10 * ((A - 50 * c50) / 10))%Z); [|lia].
      pose proof (Z.mul_div_le (A - 50 * c50) 10 ltac:(lia)).
      pose proof (Z.mul_succ_div_gt (A - 50 * c50) 10 ltac:(lia)). left. lia. }
    rewrite <- E10. set (c10 := ((A - 50 * c50) / 10)%Z) in *.
    pose proof (Z.mul_div_le (A - 50 * c50) 10 ltac:(lia)) as L10.
    pose proof (Z.mul_succ_div_gt (A - 50 * c50) 10 ltac:(lia)) as U10.
    fold c10 in L10, U10.
    assert (E5 : ((A - 50 * c50 - 10 * c10) / 5
                  = (5 * q - 50 * c50 - 10 * c10) / 5)%Z).
    { apply Z.div_unique
        with (r := (5 * q - 50 * c50 - 10 * c10
                    - 5 * ((A - 50 * c50 - 10 * c10) / 5))%Z); [|lia].
      pose proof (Z.mul_div_le (A - 50 * c50 - 10 * c10) 5 ltac:(lia)).
      pose proof (Z.mul_succ_div_gt (A - 50 * c50 - 10 * c10) 5 ltac:(lia)).
      left. lia. }
    rewrite <- E5. reflexivity. }
  assert (Hget : forall t A n, knotsOf t = num A -> (5 <= A)%Z ->
                   (A <= 2 ^ 53)%Z -> Z.to_nat (A / 5) < n ->
                   getBarbs n t = Returns (Some (greedy A))).
  { intros t A n Ht HA HA' Hn. rewrite (getBarbs_num t A n Ht HA' Hn).
    destruct (Z.ltb_spec A 5); [lia|reflexivity]. }
  split; [exact (Hget this K fuel HK H5 Hmax Hfuel)|]. split.
  - destruct (greedy_bounds K ltac:(lia)) as (Hsum & _ & _). cbv zeta in Hsum.
    pose proof (Z.mul_div_le K 5 ltac:(lia)).
    pose proof (Z.mul_succ_div_gt K 5 ltac:(lia)). lia.
  - intros that K' fuel' HK' Hsame Hmax' Hfuel'.
    assert (H5' : (5 <= K')%Z).
    { pose proof (Z.mul_succ_div_gt K' 5 ltac:(lia)).
      pose proof (Z.mul_div_le K 5 ltac:(lia)).
      assert (1 <= K / 5)%Z by (apply Z.div_le_lower_bound; lia).
      pose proof (Z.mul_div_le K' 5 ltac:(lia)). lia. }
    rewrite (Hget that K' fuel' HK' H5' Hmax' Hfuel').
    rewrite (Hgreedy K H5), (Hgreedy K' H5'), Hsame. reflexivity.
Qed.

Lemma buckets_of_85_knots :
  exists b,
    getBarbs 18 barb85 = Returns (Some b)
    /\ (50 * Z.of_nat (barbs50 b) + 10 * Z.of_nat (barbs10 b)
        + 5 * Z.of_nat (barbs5 b) = 5 * (85 / 5))%Z
    /\ forall (that : D3WindBarb) (K' : Z) (fuel' : nat),
         knotsOf that = num K' -> (K' / 5 = 85 / 5)%Z -> (K' <= 2 ^ 53)%Z ->
         Z.to_nat (K' / 5) < fuel' ->
         getBarbs fuel' that = Returns (Some b).
Proof.
  exact (getBarbs_five_knot_buckets barb85 85 18 eq_refl ltac:(lia)
           ltac:(lia) ltac:(vm_compute; lia)).
Defined.

(** ** The segments in the tree *)

Lemma filter_fmap_all {A B} (p : B -> bool) (f : A -> B) (l : list A) :
  (forall x, p (f x) = true) -> List.filter p (f <$> l) = f <$> l.
Proof.
  intros H. induction l as [|x l IH]; [reflexivity|].
  cbn. rewrite H. f_equal. exact IH.
Qed.

Lemma filter_fmap_none {A B} (p : B -> bool) (f : A -> B) (l : list A) :
  (forall x, p (f x) = false) -> List.filter p (f <$> l) = [].
Proof.
  intros H. induction l as [|x l IH]; [reflexivity|].
  cbn. rewrite H. exact IH.
Qed.

Lemma descendants_enterAppend (data : list nat) (build : nat -> element) :
  (forall i, childNodes (build i) = []) ->
  descendants (enterAppend data build) = build <$> data.
Proof.
  intros Hleaf. rewrite descendants_unfold. cbn [enterAppend childNodes].
  induction data as [|i data IH]; [reflexivity|].
  cbn. rewrite (descendants_leaf (build i) (Hleaf i)). cbn. f_equal. exact IH.
Qed.

Lemma childNodes_rootLine (this : D3WindBarb) : childNodes (rootLine this) = [].
Proof. unfold rootLine. destruct (rootBarClassName (fullOptions this)); reflexivity. Qed.

(** The descendants of the group of a windy render, in document order. *)
Lemma descendants_barbsContainer (this : D3WindBarb) (barbs : Barbs) :
  descendants (barbsContainer this barbs)
  = rootLine this
    :: (if decide (barbs50 barbs ≠ 0)
        then enterAppend (range (barbs50 barbs)) (triangleElement this)
             :: (triangleElement this <$> range (barbs50 barbs))
        else [])
    ++ (if decide (barbs10 barbs ≠ 0)
        then enterAppend (range (barbs10 barbs))
               (fullBarElement this (fullBarsRight this barbs))
             :: (fullBarElement this (fullBarsRight this barbs)
                   <$> range (barbs10 barbs))
        else [])
    ++ (if decide (barbs5 barbs ≠ 0)
        then enterAppend (range (barbs5 barbs))
               (halfBarElement this (halfBarsRight this barbs))
             :: (halfBarElement this (halfBarsRight this barbs)
                   <$> range (barbs5 barbs))
        else []).
Proof.
  rewrite descendants_unfold, childNodes_barbsContainer. unfold segmentGroups.
  cbn [flat_map]. rewrite (descendants_leaf _ (childNodes_rootLine this)).
  cbn [List.app]. f_equal.
  rewrite !flat_map_app.
  destruct (decide (barbs50 barbs ≠ 0)), (decide (barbs10 barbs ≠ 0)),
    (decide (barbs5 barbs ≠ 0)); cbn [flat_map List.app];
    rewrite ?descendants_enterAppend by reflexivity;
    rewrite ?app_nil_r; reflexivity.
Qed.

Lemma range_0 (q : nat) {A} (f : nat -> A) : q = 0 -> f <$> range q = [].
Proof. intros ->. reflexivity. Qed.

(** X3. In the group of a windy render the [path] elements are exactly
    the triangles, one for each index below the count of 50s and in that
    order; the [line] elements are the shaft, then the full bars, then the
    half bars, as many as the counts of 10s and of 5s; and there is one
    inner [g] for each count that is not zero. *)
Theorem elements_of_barbsContainer (this : D3WindBarb) (barbs : Barbs) :
  let group := barbsContainer this barbs in
  getElementsByTagName "path" group
    = (triangleElement this <$> range (barbs50 barbs))
  /\ getElementsByTagName "line" group
     = rootLine this
       :: (fullBarElement this (fullBarsRight this barbs)
             <$> range (barbs10 barbs))
       ++ (halfBarElement this (halfBarsRight this barbs)
             <$> range (barbs5 barbs))
  /\ length (getElementsByTagName "path" group) = barbs50 barbs
  /\ length (getElementsByTagName "line" group)
     = 1 + barbs10 barbs + barbs5 barbs
  /\ length (getElementsByTagName "g" group)
     = (if decide (barbs50 barbs ≠ 0) then 1 else 0)
       + (if decide (barbs10 barbs ≠ 0) then 1 else 0)
       + (if decide (barbs5 barbs ≠ 0) then 1 else 0).
Proof.
  intros group.
  assert (Hroot : tagName (rootLine this) = "line")
    by apply (rootLine_ends this).
  assert (Hpath : getElementsByTagName "path" group
                  = (triangleElement this <$> range (barbs50 barbs))).
  { unfold getElementsByTagName, group. rewrite descendants_barbsContainer.
    cbn [List.filter]. rewrite Hroot. cbn [String.eqb Ascii.eqb Bool.eqb].
    rewrite !List.filter_app.
    destruct (decide (barbs50 barbs ≠ 0)) as [H50|H50],
      (decide (barbs10 barbs ≠ 0)), (decide (barbs5 barbs ≠ 0));
      cbn [List.filter enterAppend tagName];
      cbn [String.eqb Ascii.eqb Bool.eqb];
      rewrite ?(filter_fmap_all _ (triangleElement this)) by reflexivity;
      rewrite ?(filter_fmap_none _ (fullBarElement this _)) by reflexivity;
      rewrite ?(filter_fmap_none _ (halfBarElement this _)) by reflexivity;
      rewrite ?app_nil_r; try reflexivity;
      symmetry; apply range_0; lia. }
  assert (Hline : getElementsByTagName "line" group
                  = rootLine this
                    :: (fullBarElement this (fullBarsRight this barbs)
                          <$> range (barbs10 barbs))
                    ++ (halfBarElement this (halfBarsRight this barbs)
                          <$> range (barbs5 barbs))).
  { unfold getElementsByTagName, group. rewrite descendants_barbsContainer.
    cbn [List.filter]. rewrite Hroot. cbn [String.eqb Ascii.eqb Bool.eqb].
    f_equal. rewrite !List.filter_app.
    destruct (decide (barbs50 barbs ≠ 0)),
      (decide (barbs10 barbs ≠ 0)) as [H10|H10],
      (decide (barbs5 barbs ≠ 0)) as [H5|H5];
      cbn [List.filter enterAppend tagName];
      cbn [String.eqb Ascii.eqb Bool.eqb];
      rewrite ?(filter_fmap_none _ (triangleElement this)) by reflexivity;
      rewrite ?(filter_fmap_all _ (fullBarElement this _)) by reflexivity;
      rewrite ?(filter_fmap_all _ (halfBarElement this _)) by reflexivity;
      rewrite ?(range_0 (barbs10 barbs)) by lia;
      rewrite ?(range_0 (barbs5 barbs)) by lia;
      rewrite ?app_nil_r; reflexivity. }
  split; [exact Hpath|]. split; [exact Hline|].
  split; [rewrite Hpath, length_fmap; apply length_seq|].
  split.
  { rewrite Hline. cbn [length]. rewrite length_app, !length_fmap.
    unfold range. rewrite !length_seq. lia. }
  unfold getElementsByTagName, group. rewrite descendants_barbsContainer.
  cbn [List.filter]. rewrite Hroot. cbn [String.eqb Ascii.eqb Bool.eqb].
  rewrite !List.filter_app, !length_app.
  destruct (decide (barbs50 barbs ≠ 0)), (decide (barbs10 barbs ≠ 0)),
    (decide (barbs5 barbs ≠ 0));
    cbn [List.filter enterAppend tagName];
    cbn [String.eqb Ascii.eqb Bool.eqb];
    rewrite ?(filter_fmap_none _ (triangleElement this)) by reflexivity;
    rewrite ?(filter_fmap_none _ (fullBarElement this _)) by reflexivity;
    rewrite ?(filter_fmap_none _ (halfBarElement this _)) by reflexivity;
    reflexivity.
Qed.














(** ** The bars and the shaft *)

Lemma sub_self (q : Q) : (Fin q - Fin q)%num = num 0.
Proof.
  cbn. change (num 0) with (Num.fin 0). apply fin_eq. ring.
Qed.

Lemma sub_half (q : Q) : (Fin q - Fin q / num 2)%num = Num.fin (q / 2).
Proof.
  cbn. apply fin_eq. rewrite Qred_correct. field.
Qed.

(** X5. On every instance that the constructor makes, the bar height is
    the canvas height. So, for a finite height, every full bar is the line
    from its foot [(x, height)] up to [(x, 0)] and every half bar the line
    from its foot up to [(x, height / 2)], each turned by the bar angle
    about its own foot. *)
Theorem bars_span_the_canvas_height (Math : MathObject) (speed angle : number)
    (opts : option PublicWindBarbOptions) (w : world) (h : Q) :
  let this := (constructor Math speed angle opts w).1 in
  Size.height (size (fullOptions this)) = Fin h ->
  Dims.barHeight (dims (fullOptions this)) = Fin h
  /\ forall (right : number) (i : nat),
       let x := barX this right i in
       let turned := AttrTransform [rotate (Bar.angle (bar (fullOptions this)))] in
       let full := fullBarElement this right i in
       let half := halfBarElement this right i in
       (attributes full !! "x1" = Some (AttrNumber x)
        /\ attributes full !! "y1" = Some (AttrNumber (Fin h))
        /\ attributes full !! "x2" = Some (AttrNumber x)
        /\ attributes full !! "y2" = Some (AttrNumber (num 0))
        /\ attributes full !! "transform-origin" = Some (AttrOrigin x (Fin h) "")
        /\ attributes full !! "transform" = Some turned)
       /\ (attributes half !! "x1" = Some (AttrNumber x)
           /\ attributes half !! "y1" = Some (AttrNumber (Fin h))
           /\ attributes half !! "x2" = Some (AttrNumber x)
           /\ attributes half !! "y2" = Some (AttrNumber (Num.fin (h / 2)))
           /\ attributes half !! "transform-origin"
              = Some (AttrOrigin x (Fin h) "")
           /\ attributes half !! "transform" = Some turned).
Proof.
  intros this Hh.
  assert (Hbar : Dims.barHeight (dims (fullOptions this))
                 = Size.height (size (fullOptions this)))
    by (subst this; rewrite constructor_spec; reflexivity).
  split; [rewrite Hbar; exact Hh|].
  intros right i x turned full half.
  subst full half. unfold fullBarElement, halfBarElement, barElement.
  rewrite Hbar, Hh, sub_self, sub_half.
  repeat split; reflexivity.
Qed.

Lemma bars_of_the_default_canvas :
  Dims.barHeight (dims (fullOptions barb85)) = num 33
  /\ attributes (fullBarElement barb85 (num 0) 0) !! "y2"
     = Some (AttrNumber (num 0))
  /\ attributes (halfBarElement barb85 (num 0) 0) !! "y2"
     = Some (AttrNumber (Num.fin (33 / 2))).
Proof.
  destruct (bars_span_the_canvas_height MathRational (num 85) (num 90) None
              emptyDocument 33 eq_refl) as [Hb Hall].
  destruct (Hall (num 0) 0) as [(_ & _ & _ & Hf & _) (_ & _ & _ & Hh & _)].
  split; [exact Hb|]. split; [exact Hf|exact Hh].
Defined.

Lemma draw_ext (fuel : nat) (this that : D3WindBarb)
    (container : option string) (w : world) :
  speed this = speed that -> angle this = angle that ->
  fullOptions this = fullOptions that -> svg this = svg that ->
  draw fuel this container w = draw fuel that container w.
Proof.
  destruct this as [s1 a1 o1 f1 r1], that as [s2 a2 o2 f2 r2].
  cbn [speed angle fullOptions svg]. intros -> -> -> ->. reflexivity.
Qed.

(** X6. The option [rootBarClassName] has no effect. [mergeOptions] never
    copies it (nor its default), so on every instance that the constructor
    makes the shaft carries no [class] attribute; it takes its stroke and
    its stroke width from the bar options; and a render gives the same
    result whatever [rootBarClassName] the options hold. *)
Theorem rootBarClassName_is_ignored (Math : MathObject) (speed angle : number)
    (opts : option PublicWindBarbOptions) (w : world) :
  let this := (constructor Math speed angle opts w).1 in
  rootBarClassName (fullOptions this) = None
  /\ attributes (rootLine this) !! "class" = None
  /\ attributes (rootLine this) !! "stroke"
     = Some (AttrString (Bar.stroke (bar (fullOptions this))))
  /\ attributes (rootLine this) !! "stroke-width"
     = Some (AttrNumber (Bar.width (bar (fullOptions this))))
  /\ (forall (name : option string) (o : PublicWindBarbOptions)
        (container : option string) (fuel : nat),
        render Math speed angle (Some (withRootBarClassName name o))
          container fuel w
        = render Math speed angle (Some o) container fuel w)
  /\ (forall (name : option string) (container : option string) (fuel : nat),
        render Math speed angle
          (Some (withRootBarClassName name
                   {| pSize := None; pRootBarClassName := None;
                      pSvgId := None; pConversionFactor := None;
                      pBar := None; pTriangle := None; pCircle := None |}))
          container fuel w
        = render Math speed angle None container fuel w).
Proof.
  intros this.
  assert (Hnone : rootBarClassName (fullOptions this) = None)
    by (subst this; rewrite constructor_spec; reflexivity).
  split; [exact Hnone|].
  unfold rootLine. rewrite Hnone.
  split; [reflexivity|]. split; [reflexivity|]. split; [reflexivity|].
  split.
  - intros name o container fuel. unfold render.
    rewrite !constructor_spec. apply draw_ext; reflexivity.
  - intros name container fuel. unfold render.
    rewrite !constructor_spec. apply draw_ext; reflexivity.
Qed.

(** ** The svg root *)

(** X8. [createSvg] makes one new node and leaves the others alone: an
    [svg] without children whose [viewBox] is [0 0 width height], with the
    same width and height as attributes, [preserveAspectRatio] and
    [overflow]; it has an [id] exactly when [svgId] is not the empty
    string, and no attribute besides these. *)
Theorem createSvg_creates_the_root (fo : PrivateWindBarbOptions) (w : world) :
  let r := (createSvg fo w).1 in
  let w' := (createSvg fo w).2 in
  let width := Size.width (size fo) in
  let height := Size.height (size fo) in
  (r ∉ dom (nodes w))
  /\ (forall other, other ≠ r -> nodes w' !! other = nodes w !! other)
  /\ querySelector w' = querySelector w
  /\ attached w' = attached w
  /\ exists root,
       nodes w' !! r = Some root
       /\ tagName root = "svg"
       /\ childNodes root = []
       /\ attributes root !! "viewBox"
          = Some (AttrViewBox (num 0) (num 0) width height)
       /\ attributes root !! "width" = Some (AttrNumber width)
       /\ attributes root !! "height" = Some (AttrNumber height)
       /\ attributes root !! "preserveAspectRatio"
          = Some (AttrString "xMidYMid meet")
       /\ attributes root !! "overflow" = Some (AttrString "visible")
       /\ attributes root !! "id"
          = (if truthy (svgId fo) then Some (AttrString (svgId fo)) else None)
       /\ (svgId fo = "" -> attributes root !! "id" = None)
       /\ forall name,
            name ∉ ["viewBox"; "width"; "height"; "preserveAspectRatio";
                    "overflow"; "id"] ->
            attributes root !! name = None.
Proof.
  intros r w' width height. subst r w'. rewrite createSvg_spec. cbn [fst snd nodes
    querySelector attached].
  split; [apply is_fresh|].
  split; [intros other Ho; apply lookup_insert_ne; congruence|].
  split; [reflexivity|]. split; [reflexivity|].
  exists (svgElement fo). split; [apply lookup_insert_eq|].
  split; [apply tagName_svgElement|]. split; [apply childNodes_svgElement|].
  assert (Hother : forall name,
            name ∉ ["viewBox"; "width"; "height"; "preserveAspectRatio";
                    "overflow"; "id"] ->
            attributes (svgElement fo) !! name = None).
  { intros name Hname. unfold svgElement.
    destruct (truthy (svgId fo)); cbn [attr attributes createElement];
      rewrite !lookup_insert_ne, ?lookup_empty; try reflexivity;
      intros Heq; apply Hname; rewrite <- Heq; set_solver. }
  assert (Hid : attributes (svgElement fo) !! "id"
                = (if truthy (svgId fo)
                   then Some (AttrString (svgId fo)) else None))
    by (unfold svgElement; destruct (truthy (svgId fo)); reflexivity).
  split; [unfold svgElement; destruct (truthy (svgId fo)); reflexivity|].
  split; [unfold svgElement; destruct (truthy (svgId fo)); reflexivity|].
  split; [unfold svgElement; destruct (truthy (svgId fo)); reflexivity|].
  split; [unfold svgElement; destruct (truthy (svgId fo)); reflexivity|].
  split; [unfold svgElement; destruct (truthy (svgId fo)); reflexivity|].
  split; [exact Hid|].
  split; [intros Hempty; rewrite Hid, Hempty; reflexivity|exact Hother].
Qed.

Lemma constructor_root (Math : MathObject) (speed angle : number)
    (opts : option PublicWindBarbOptions) (w : world) :
  let this := (constructor Math speed angle opts w).1 in
  let w0 := (constructor Math speed angle opts w).2 in
  nodes w0 !! svg this = Some (svgElement (fullOptions this))
  /\ (forall other, other ≠ svg this -> nodes w0 !! other = nodes w !! other)
  /\ querySelector w0 = querySelector w
  /\ attached w0 = attached w
  /\ (svg this ∉ dom (nodes w)).
Proof.
  intros this w0. subst this w0. rewrite constructor_spec.
  cbn [fst snd svg nodes fullOptions querySelector attached].
  split; [apply lookup_insert_eq|].
  split; [intros other Ho; apply lookup_insert_ne; congruence|].
  split; [reflexivity|]. split; [reflexivity|apply is_fresh].
Qed.

Lemma filter_absent (r : nat) (l : list nat) :
  r ∉ l -> filter (λ x, x ≠ r) l = l.
Proof.
  induction l as [|x l IH]; intros H; [reflexivity|].
  apply not_elem_of_cons in H. destruct H as [Hx Hl].
  rewrite filter_cons_True by congruence. rewrite (IH Hl). reflexivity.
Qed.

(** ** The container *)

(** X9. The first [draw(selector)] of a new instance, when [querySelector]
    finds an element for the selector: it returns the svg with its shape,
    as [draw()] does, and the svg is the last child of that element, after
    the children that the element had. Nothing else is attached or
    detached. (The references that [attached] lists are taken to be
    nodes, which the new svg is not before its construction.) *)
Theorem draw_attaches_to_the_target (Math : MathObject) (speed angle : number)
    (opts : option PublicWindBarbOptions) (selector : string) (target : nat)
    (fuel : nat) (w : world) :
  let this := (constructor Math speed angle opts w).1 in
  let w0 := (constructor Math speed angle opts w).2 in
  enoughFuel this fuel ->
  truthy selector = true ->
  querySelector w selector = Match target ->
  attachedAreNodes w ->
  exists b w' plain,
    getBarbs fuel this = Returns b
    /\ draw fuel this (Some selector) w0 = Returns (svg this, w')
    /\ draw fuel this None w0 = Returns (svg this, plain)
    /\ nodes w' !! svg this = nodes plain !! svg this
    /\ nodes w' !! svg this
       = Some (append (shapeOf this b) (svgElement (fullOptions this)))
    /\ attached w' !! target
       = Some (default [] (attached w !! target) ++ [svg this])
    /\ (svg this ∉ default [] (attached w !! target))
    /\ (forall other, other ≠ target ->
          attached w' !! other = attached w !! other)
    /\ attached plain = attached w.
Proof.
  intros this w0 Hfuel Ht Hq Hwf.
  destruct (constructor_root Math speed angle opts w)
    as (Hroot & _ & Hq0 & Ha0 & Hfresh).
  fold this in Hroot, Hfresh. fold w0 in Hroot, Hq0, Ha0.
  clearbody this w0.
  destruct (getBarbs_returns this fuel Hfuel) as [b Hb].
  assert (Hsel : selectorAccepted w0 (Some selector)).
  { cbn. rewrite Hq0, Hq. discriminate. }
  assert (Habsent : forall t l, attached w !! t = Some l -> svg this ∉ l).
  { intros t l Hl Hin. apply Hfresh. exact (Hwf t l _ Hl Hin). }
  assert (Hdet : forall t, (filter (λ x, x ≠ svg this) <$> attached w) !! t
                           = attached w !! t).
  { intros t. rewrite lookup_fmap. destruct (attached w !! t) as [l|] eqn:E;
      [|reflexivity].
    cbn. rewrite (filter_absent _ _ (Habsent t l E)). reflexivity. }
  exists b,
    (attachStep this (Some selector)
       (updateNode (svg this) (append (shapeOf this b)) w0)),
    (updateNode (svg this) (append (shapeOf this b)) w0).
  split; [exact Hb|].
  split; [exact (draw_spec fuel this (Some selector) w0 b Hb Hsel)|].
  split; [exact (draw_spec fuel this None w0 b Hb I)|].
  rewrite nodes_attachStep. split; [reflexivity|].
  split.
  { cbn [updateNode nodes]. rewrite lookup_alter_eq, Hroot. reflexivity. }
  unfold attachStep. rewrite Ht. cbn [updateNode querySelector].
  rewrite Hq0, Hq. unfold appendChild. cbn [attached updateNode]. rewrite Ha0.
  split; [rewrite lookup_insert_eq, Hdet; reflexivity|].
  split.
  { destruct (attached w !! target) as [l|] eqn:E; [|apply not_elem_of_nil].
    exact (Habsent target l E). }
  split; [|reflexivity].
  intros other Ho. rewrite lookup_insert_ne by congruence. apply Hdet.
Qed.

Lemma draw_attaches_in_test_document :
  exists b w',
    getBarbs 9 barbWithId = Returns b
    /\ draw 9 barbWithId (Some "#container") documentWithBarb
       = Returns (svg barbWithId, w')
    /\ attached w' !! 0 = Some [svg barbWithId].
Proof.
  destruct (draw_attaches_to_the_target MathRational (num 40) (num 0)
              (Some optionsWithSvgId) "#container" 0 9 containerDocument
              ltac:(enough_fuel) eq_refl eq_refl
              ltac:(intros t l r Hl Hr; exfalso;
                    destruct (decide (t = 0)) as [->|Hne];
                    [ assert (l = []) as -> by (vm_compute in Hl; congruence);
                      inversion Hr
                    | unfold containerDocument in Hl; cbn [attached] in Hl;
                      rewrite lookup_singleton_ne in Hl by congruence;
                      discriminate ]))
    as (b & w' & _ & Hb & Hd & _ & _ & _ & Ha & _).
  exists b, w'. split; [exact Hb|]. split; [exact Hd|exact Ha].
Defined.

(** X10. The outcomes of the first [draw] of a new instance, once the loop
    of [getBarbs] has fuel enough: it throws, the [SyntaxError] of
    [querySelector], exactly when the container is a selector, not empty,
    that [querySelector] refuses; otherwise it returns the svg; it does
    one or the other. The empty string as container is no container:
    [draw("")] is [draw()], and [querySelector] is not asked. *)
Theorem draw_outcomes (Math : MathObject) (speed angle : number)
    (opts : option PublicWindBarbOptions) (container : option string)
    (fuel : nat) (w : world) :
  let this := (constructor Math speed angle opts w).1 in
  let w0 := (constructor Math speed angle opts w).2 in
  let refused :=
    exists selector,
      container = Some selector
      /\ truthy selector = true
      /\ querySelector w selector = InvalidSelector in
  enoughFuel this fuel ->
  (forall e, draw fuel this container w0 = Throws e <-> refused)
  /\ ((exists w', draw fuel this container w0 = Returns (svg this, w'))
      <-> ~ refused)
  /\ draw fuel this container w0 <> Diverges
  /\ draw fuel this (Some "") w0 = draw fuel this None w0.
Proof.
  intros this w0 refused Hfuel.
  destruct (constructor_root Math speed angle opts w) as (_ & _ & Hq0 & _).
  fold w0 in Hq0. clearbody this w0.
  destruct (getBarbs_returns this fuel Hfuel) as [b Hb].
  assert (Hq : forall selector,
            querySelector
              match b with
              | Some barbs => drawBarbs this barbs w0
              | None => drawCircle this w0
              end selector = querySelector w selector).
  { intros selector. rewrite <- Hq0. destruct b; reflexivity. }
  assert (Hcases : (refused /\ forall e,
                      draw fuel this container w0 = Throws e)
                   \/ (~ refused /\ exists w',
                         draw fuel this container w0 = Returns (svg this, w'))).
  { unfold draw. rewrite Hb. destruct container as [selector|].
    - destruct (truthy selector) eqn:Ht.
      + rewrite Hq. destruct (querySelector w selector) eqn:E.
        * right. split; [|eauto].
          intros (s' & [= <-] & _ & E'). congruence.
        * right. split; [|eauto].
          intros (s' & [= <-] & _ & E'). congruence.
        * left. split; [exists selector; auto|].
          intros []. reflexivity.
      + right. split; [|eauto].
        intros (s' & [= <-] & Ht' & _). congruence.
    - right. split; [|eauto]. intros (s' & [=] & _). }
  split; [|split; [|split]].
  - intros e. destruct Hcases as [[Hr Ht] | [Hr (w' & Hw')]].
    + split; [intros _; exact Hr|intros _; apply Ht].
    + rewrite Hw'. split; [discriminate|contradiction].
  - destruct Hcases as [[Hr Ht] | [Hr (w' & Hw')]].
    + split; [|contradiction].
      intros (w' & Hw'). rewrite (Ht SyntaxError) in Hw'. discriminate.
    + split; [intros _; exact Hr|intros _; eauto].
  - destruct Hcases as [[_ Ht] | [_ (w' & Hw')]].
    + rewrite (Ht SyntaxError). discriminate.
    + rewrite Hw'. discriminate.
  - reflexivity.
Qed.

Lemma draw_outcomes_in_test_document :
  (draw 9 barbWithId (Some "#") documentWithBarb = Throws SyntaxError)
  /\ (exists w', draw 9 barbWithId (Some "#missing") documentWithBarb
                 = Returns (svg barbWithId, w')).
Proof.
  split.
  - apply (proj1 (draw_outcomes MathRational (num 40) (num 0)
                    (Some optionsWithSvgId) (Some "#") 9 containerDocument
                    ltac:(enough_fuel))).
    exists "#". repeat split; reflexivity.
  - apply (proj1 (proj2 (draw_outcomes MathRational (num 40) (num 0)
                           (Some optionsWithSvgId) (Some "#missing") 9
                           containerDocument ltac:(enough_fuel)))).
    intros (s' & [= <-] & _ & E). discriminate.
Defined.

(** ** Repeated draws *)

Lemma drawTimes_spec (n : nat) (fuel : nat) (this : D3WindBarb)
    (w : world) (root : element) :
  enoughFuel this fuel ->
  nodes w !! svg this = Some root ->
  exists b w',
    getBarbs fuel this = Returns b
    /\ drawTimes n fuel this w = Returns w'
    /\ nodes w' !! svg this
       = Some {| tagName := tagName root;
                 attributes := attributes root;
                 childNodes := childNodes root ++ replicate n (shapeOf this b) |}
    /\ (forall other, other ≠ svg this -> nodes w' !! other = nodes w !! other)
    /\ dom (nodes w') = dom (nodes w)
    /\ querySelector w' = querySelector w
    /\ attached w' = attached w.
Proof.
  intros Hfuel Hroot.
  destruct (getBarbs_returns this fuel Hfuel) as [b Hb]. exists b.
  induction n as [|n IH].
  - exists w. split; [exact Hb|]. split; [reflexivity|].
    split; [|repeat split; reflexivity].
    rewrite Hroot. cbn [replicate]. rewrite app_nil_r. destruct root; reflexivity.
  - destruct IH as (w1 & _ & Hd & Hn & Hframe & Hdom & Hq & Ha).
    exists (updateNode (svg this) (append (shapeOf this b)) w1).
    split; [exact Hb|]. split.
    { cbn [drawTimes]. rewrite Hd, (draw_spec fuel this None w1 b Hb I).
      reflexivity. }
    cbn [updateNode nodes querySelector attached attachStep].
    split.
    { rewrite lookup_alter_eq, Hn. cbn [fmap option_fmap option_map append
                                          tagName attributes childNodes].
      rewrite replicate_S_end, app_assoc. reflexivity. }
    split.
    { intros other Ho. rewrite lookup_alter_ne by congruence. apply Hframe, Ho. }
    split; [rewrite dom_alter_L; exact Hdom|]. split; [exact Hq|exact Ha].
Qed.

(** X11. [draw()] is not idempotent: it appends to the svg each time. On
    an instance that the constructor has made, [n] calls of [draw()] in a
    row all return, and leave the svg with the attributes that [createSvg]
    gave it and exactly [n] children, each the same shape; so the children
    are as many as the calls, and [draw] never removes what an earlier
    call has drawn. Nothing is attached to the document. *)
Theorem drawTimes_appends_copies (Math : MathObject) (speed angle : number)
    (opts : option PublicWindBarbOptions) (n fuel : nat) (w : world) :
  let this := (constructor Math speed angle opts w).1 in
  let w0 := (constructor Math speed angle opts w).2 in
  enoughFuel this fuel ->
  exists b w',
    getBarbs fuel this = Returns b
    /\ drawTimes n fuel this w0 = Returns w'
    /\ (tagName <$> nodes w' !! svg this) = Some "svg"
    /\ (attributes <$> nodes w' !! svg this)
       = Some (attributes (svgElement (fullOptions this)))
    /\ (childNodes <$> nodes w' !! svg this)
       = Some (replicate n (shapeOf this b))
    /\ (length ∘ childNodes <$> nodes w' !! svg this) = Some n
    /\ attached w' = attached w.
Proof.
  intros this w0 Hfuel.
  destruct (constructor_root Math speed angle opts w)
    as (Hroot & _ & _ & Ha0 & _).
  destruct (drawTimes_spec n fuel this w0 _ Hfuel Hroot)
    as (b & w' & Hb & Hd & Hn & _ & _ & _ & Ha).
  exists b, w'. split; [exact Hb|]. split; [exact Hd|].
  rewrite Hn. cbn [fmap option_fmap option_map tagName attributes childNodes compose].
  rewrite childNodes_svgElement, tagName_svgElement. cbn [app].
  rewrite length_replicate, Ha. repeat split; try reflexivity. exact Ha0.
Qed.

Lemma drawTimes_of_85_knots :
  exists b w',
    getBarbs 18 barb85 = Returns b
    /\ drawTimes 3 18 barb85
         (constructor MathRational (num 85) (num 90) None emptyDocument).2
       = Returns w'
    /\ (childNodes <$> nodes w' !! svg barb85)
       = Some (replicate 3 (shapeOf barb85 b)).
Proof.
  destruct (drawTimes_appends_copies MathRational (num 85) (num 90) None
              3 18 emptyDocument ltac:(enough_fuel))
    as (b & w' & Hb & Hd & _ & _ & Hc & _).
  exists b, w'. split; [exact Hb|]. split; [exact Hd|exact Hc].
Defined.

(** X12. Instances do not interfere when they draw without a container.
    A new instance gets a node that did not exist, and neither its
    construction nor any number of its [draw()]s changes a node that
    existed before, what is attached to the document, or what
    [querySelector] answers: the svg of an older instance keeps the tree
    that it had. *)
Theorem instances_do_not_interfere (Math : MathObject) (speed angle : number)
    (opts : option PublicWindBarbOptions) (n fuel : nat) (w : world) :
  let that := (constructor Math speed angle opts w).1 in
  let w0 := (constructor Math speed angle opts w).2 in
  enoughFuel that fuel ->
  (svg that ∉ dom (nodes w))
  /\ exists w',
       drawTimes n fuel that w0 = Returns w'
       /\ (forall other tree,
             nodes w !! other = Some tree ->
             other ≠ svg that
             /\ nodes w0 !! other = Some tree
             /\ nodes w' !! other = Some tree)
       /\ attached w' = attached w
       /\ querySelector w' = querySelector w.
Proof.
  intros that w0 Hfuel.
  destruct (constructor_root Math speed angle opts w)
    as (Hroot & Hw0 & Hq0 & Ha0 & Hfresh).
  fold that in Hroot, Hw0, Hfresh. fold w0 in Hroot, Hw0, Hq0, Ha0.
  split; [exact Hfresh|].
  destruct (drawTimes_spec n fuel that w0 _ Hfuel Hroot)
    as (b & w' & _ & Hd & _ & Hframe & _ & Hq & Ha).
  exists w'. split; [exact Hd|].
  split; [|split; [rewrite Ha; exact Ha0|rewrite Hq; exact Hq0]].
  intros other tree Ho.
  assert (Hne : other ≠ svg that).
  { intros ->. apply Hfresh. apply elem_of_dom. eauto. }
  split; [exact Hne|]. split.
  - rewrite (Hw0 other Hne). exact Ho.
  - rewrite (Hframe other Hne), (Hw0 other Hne). exact Ho.
Qed.

Lemma second_instance_leaves_the_first :
  let w := worldAfter firstRender emptyDocument in
  let that := (constructor MathRational (num 10) (num 90) None w).1 in
  (svg that ∉ dom (nodes w))
  /\ exists w',
       drawTimes 2 3 that
         (constructor MathRational (num 10) (num 90) None w).2 = Returns w'
       /\ forall other tree,
            nodes w !! other = Some tree ->
            other ≠ svg that
            /\ nodes w' !! other = Some tree.
Proof.
  destruct (instances_do_not_interfere MathRational (num 10) (num 90) None
              2 3 (worldAfter firstRender emptyDocument)
              ltac:(enough_fuel)) as (Hf & w' & Hd & Hall & _).
  split; [exact Hf|]. exists w'. split; [exact Hd|].
  intros other tree Ho. destruct (Hall other tree Ho) as (H1 & _ & H3).
  split; assumption.
Defined.
